(** * Quote correlation engine of the Comprador agent

    A shallow embedding of the Go packages [comprador], [comprador/suppliers],
    [internal/claude] and [internal/whatsapp]: the quote store, the outbound
    dispatcher ([SendQuotes]), the response correlator ([handleIncoming]),
    the wait loop and decision step of [Quote], and the supplier matcher.

    Go values are modelled as follows.
    - [string] is [string]; [float64] payloads (prices, quantities, ratings)
      are only carried around, never computed with, and are rationals here.
    - [time.Duration] and clock readings are integers counting nanoseconds.
    - An [error] is its message; a Go result [(v, err)] is [Res].
    - The SQLite tables are lists of rows in insertion order.
    - Everything outside the process (the chat-completions API, the live
      message channel, UUID generation, database faults, scheduling delays,
      inbound messages) is an oracle of the environment [Env], indexed by the
      number of external interactions performed so far. *)

From Stdlib Require Import ZArith QArith List Ascii String Bool Lia.
From stdpp Require Import gmap strings list.

Open Scope string_scope.
Open Scope list_scope.
Open Scope Z_scope.

(** ** Results *)

Definition error := string.

Inductive Res (A : Type) : Type :=
| Ok (a : A)
| Err (e : error).
Arguments Ok {A} a.
Arguments Err {A} e.

Definition is_ok {A} (r : Res A) : bool :=
  match r with Ok _ => true | Err _ => false end.

Definition float64 := Q.

(** ** Durations ([time.Duration], nanoseconds) *)

Module Duration.
Definition Second : Z := 1000000000.
Definition Minute : Z := 60 * Second.
End Duration.

(** ** Data model *)

(** [suppliers.Supplier] *)
Record Supplier := {
  sup_ID : string;
  sup_Name : string;
  sup_Phone : string;
  sup_City : string;
  sup_Categories : list string;
  sup_Rating : float64;
  sup_Active : bool
}.

(** [suppliers.QuoteItem] *)
Record QuoteItem := {
  qi_Name : string;
  qi_Qty : float64;
  qi_Unit : string;
  qi_Price : float64
}.

(** [suppliers.Quote] *)
Record Quote := {
  q_ID : string;
  q_RequestID : string;
  q_SupplierID : string;
  q_Items : list QuoteItem;
  q_Response : string;
  q_Price : float64;
  q_Status : string;
  q_CreatedAt : Z;
  q_RespondedAt : option Z
}.

(** A row of table [quotes]; [response], [price] and [responded_at] are
    nullable columns.  The [items] column holds the JSON of the item list,
    which is stored here as the list itself. *)
Record QuoteRow := {
  r_id : string;
  r_request_id : string;
  r_supplier_id : string;
  r_items : list QuoteItem;
  r_response : option string;
  r_price : option float64;
  r_status : string;
  r_created_at : Z;
  r_responded_at : option Z
}.

(** [comprador.ParsedItem] *)
Record ParsedItem := {
  pi_Name : string;
  pi_Qty : float64;
  pi_Unit : string;
  pi_Note : string
}.

(** [comprador.QuoteRequest] *)
Record QuoteRequest := {
  req_ID : string;
  req_Description : string;
  req_Items : list ParsedItem;
  req_Urgent : bool;
  req_Timeout : Z
}.

(** [comprador.QuoteComparison] *)
Record QuoteComparison := {
  Recommendation : string;
  BestSupplier : string;
  TotalPrice : float64;
  Table : string
}.

(** [memory.PurchaseRecord] *)
Record PurchaseRecord := {
  pr_ID : string;
  pr_Description : string;
  pr_Items : list string;
  pr_ChosenSupplier : string;
  pr_TotalPrice : float64;
  pr_CreatedAt : option Z   (* [None] is the zero [time.Time] *)
}.

(** [suppliers.MatchResult] *)
Record MatchResult := {
  mr_Supplier : Supplier;
  mr_Categories : list string;
  mr_Reason : string
}.

(** One element of the [matches] array produced by tool [match_suppliers]. *)
Record MatchedID := {
  SupplierID : string;
  Reason : string
}.

(** [comprador.Config] *)
Record Config := {
  City : string;
  QuoteTimeout : Z;
  DryRun : bool;
  WhatsAppDB : string
}.

Definition DefaultConfig : Config :=
  {| City := "local";
     QuoteTimeout := 30 * Duration.Minute;
     DryRun := true;
     WhatsAppDB := "data/whatsapp.db" |}.

(** ** The chat-completions client ([internal/claude]) *)

Record ToolCall := {
  tc_ID : string;
  tc_Name : string;
  tc_Arguments : string
}.

Record Choice := {
  FinishReason : string;
  Content : string;
  ToolCalls : list ToolCall
}.

(** Outcome of one [Chat.Completions.New] call: a transport or API failure,
    or a response with its list of choices. *)
Inductive ApiResult :=
| ApiError (e : error)
| ApiOk (choices : list Choice).

(** The user prompt of a request.  The Go code renders it with [fmt.Sprintf]
    and [json.Marshal]; only the remote model reads the text, so the prompt
    is kept as the data it is rendered from. *)
Inductive Prompt :=
| PromptParse (description : string)
| PromptCompose (supplier : string) (items : list ParsedItem)
| PromptCompare (description : string) (quotes : list Quote)
| PromptMatch (items : list string) (sups : list Supplier) (city : string).

(** [claude.ChatRequest]; a tool definition is represented by its name. *)
Record ChatRequest := {
  System : string;
  User : Prompt;
  Tools : list string
}.

(** Entries of [params.Messages]. *)
Inductive Message :=
| SystemMessage (text : string)
| UserMessage (p : Prompt)
| AssistantMessage (c : Choice)
| ToolMessage (content : string) (id : string).

(** ** Message channel ([internal/whatsapp]) *)

Inductive MessageSender :=
| MockSender
| RealSender.

(** ** Observable interactions, oldest first in the log *)

Inductive Event :=
| EvChat (msgs : list Message) (tools : list string)
| EvSend (phone message : string)
| EvUuid
| EvInsertQuote (id : string)
| EvUpdateQuote (id : string)
| EvQueryQuotes (requestID : string)
| EvListSuppliers
| EvSupplierByPhone (phone : string)
| EvUpdateBySupplier (supplierID : string)
| EvSavePurchase
| EvSleep (d : Z).

(** ** World: the database, the clock and the interaction log *)

Record World := {
  quotes : list QuoteRow;
  suppliers : list Supplier;
  purchase_memory : list PurchaseRecord;
  mock_sent : list (string * string);
  clock : Z;
  tick : nat;
  log : list Event
}.

(** ** Environment oracles *)

Record Env := {
  (** response of the API to the interaction numbered [n] *)
  completions : nat -> ApiResult;
  (** failure, if any, of the live channel's send *)
  send_fault : nat -> option error;
  (** failure, if any, of a database statement *)
  db_fault : nat -> option error;
  (** [uuid.New().String()] *)
  uuid : nat -> string;
  (** time taken by an interaction beyond what it asks for *)
  lag : nat -> N;
  (** inbound messages [(from, body)] delivered while the flow sleeps *)
  inbox : nat -> list (string * string);
  (** [json.Unmarshal] into the structures the tool executors expect *)
  unmarshal_items : string -> Res (list ParsedItem);
  unmarshal_message : string -> Res string;
  unmarshal_comparison : string -> Res QuoteComparison;
  unmarshal_matches : string -> Res (list MatchedID);
  (** [fmt.Sprintf("%.0f", x)] *)
  fmt_f0 : float64 -> string
}.

(** [comprador.Agent]: its configuration and current sender.  [listening]
    records whether [handleIncoming] has been registered on the sender,
    which only [SetSender] does. *)
Record Agent := {
  cfg : Config;
  sender : MessageSender;
  listening : bool
}.

Definition New (c : Config) : Agent :=
  {| cfg := c; sender := MockSender; listening := false |}.


(** ** World updates *)

Definition set_quotes (qs : list QuoteRow) (w : World) : World :=
  {| quotes := qs; suppliers := suppliers w;
     purchase_memory := purchase_memory w; mock_sent := mock_sent w;
     clock := clock w; tick := tick w; log := log w |}.

Definition set_purchase_memory (ps : list PurchaseRecord) (w : World) : World :=
  {| quotes := quotes w; suppliers := suppliers w;
     purchase_memory := ps; mock_sent := mock_sent w;
     clock := clock w; tick := tick w; log := log w |}.

Definition set_mock_sent (ms : list (string * string)) (w : World) : World :=
  {| quotes := quotes w; suppliers := suppliers w;
     purchase_memory := purchase_memory w; mock_sent := ms;
     clock := clock w; tick := tick w; log := log w |}.

Definition advance (d : Z) (w : World) : World :=
  {| quotes := quotes w; suppliers := suppliers w;
     purchase_memory := purchase_memory w; mock_sent := mock_sent w;
     clock := clock w + d; tick := tick w; log := log w |}.

(** [strings.TrimPrefix(phone, "+")] followed by keeping the digits. *)
Definition is_digit (c : ascii) : bool :=
  ((48 <=? nat_of_ascii c) && (nat_of_ascii c <=? 57))%nat.

Fixpoint keep_digits (s : string) : string :=
  match s with
  | EmptyString => EmptyString
  | String c s' =>
      if is_digit c then String c (keep_digits s') else keep_digits s'
  end.

Definition normalizePhone (phone : string) : string :=
  match phone with
  | String "+" rest => keep_digits rest
  | _ => keep_digits phone
  end.

(** [ORDER BY name] under SQLite's byte-wise collation. *)
Fixpoint insert_by_name (s : Supplier) (l : list Supplier) : list Supplier :=
  match l with
  | [] => [s]
  | x :: l' =>
      if String.leb (sup_Name s) (sup_Name x) then s :: x :: l'
      else x :: insert_by_name s l'
  end.

Definition order_by_name (l : list Supplier) : list Supplier :=
  fold_right insert_by_name [] l.

Definition newline : string := String (ascii_of_nat 10) EmptyString.

Section Engine.

Variable env : Env.

(** Every interaction with the outside is logged, takes the next oracle
    index and lets the clock move on. *)
Definition emit (e : Event) (w : World) : World :=
  {| quotes := quotes w; suppliers := suppliers w;
     purchase_memory := purchase_memory w; mock_sent := mock_sent w;
     clock := clock w + Z.of_N (lag env (tick w));
     tick := S (tick w);
     log := log w ++ [e] |}.

Definition uuid_New (w : World) : World * string :=
  (emit EvUuid w, uuid env (tick w)).

(** *** [suppliers.QuoteStore] *)

Definition has_id (id : string) (rows : list QuoteRow) : bool :=
  existsb (fun r => r_id r =? id)%string rows.

(** The row written by the [INSERT] of [CreateQuote]: status is the literal
    ['pending'], the columns not listed stay [NULL]. *)
Definition pending_row (id : string) (q : Quote) : QuoteRow :=
  {| r_id := id;
     r_request_id := q_RequestID q;
     r_supplier_id := q_SupplierID q;
     r_items := q_Items q;
     r_response := None;
     r_price := None;
     r_status := "pending";
     r_created_at := q_CreatedAt q;
     r_responded_at := None |}.

Definition CreateQuote (q : Quote) (w : World) : World * option error :=
  let '(w1, id) :=
    if (q_ID q =? "")%string then uuid_New w else (w, q_ID q) in
  let w2 := emit (EvInsertQuote id) w1 in
  match db_fault env (tick w1) with
  | Some e => (w2, Some e)
  | None =>
      if has_id id (quotes w1)
      then (w2, Some "UNIQUE constraint failed: quotes.id")
      else (set_quotes (quotes w1 ++ [pending_row id q]) w2, None)
  end.

Definition respond_row (response : string) (price : float64) (now : Z)
    (r : QuoteRow) : QuoteRow :=
  {| r_id := r_id r;
     r_request_id := r_request_id r;
     r_supplier_id := r_supplier_id r;
     r_items := r_items r;
     r_response := Some response;
     r_price := Some price;
     r_status := "received";
     r_created_at := r_created_at r;
     r_responded_at := Some now |}.

Definition UpdateQuoteResponse (id response : string) (price : float64)
    (w : World) : World * option error :=
  let now := clock w in
  let w1 := emit (EvUpdateQuote id) w in
  match db_fault env (tick w) with
  | Some e => (w1, Some e)
  | None =>
      (set_quotes
         (map (fun r => if (r_id r =? id)%string
                        then respond_row response price now r else r)
              (quotes w)) w1,
       None)
  end.

(** What [rows.Scan] reads back: [COALESCE(response,'')],
    [COALESCE(price,0)]; [responded_at] is not selected. *)
Definition quote_of_row (r : QuoteRow) : Quote :=
  {| q_ID := r_id r;
     q_RequestID := r_request_id r;
     q_SupplierID := r_supplier_id r;
     q_Items := r_items r;
     q_Response := default "" (r_response r);
     q_Price := default 0%Q (r_price r);
     q_Status := r_status r;
     q_CreatedAt := r_created_at r;
     q_RespondedAt := None |}.

Definition rows_of_request (requestID : string) (rows : list QuoteRow)
    : list QuoteRow :=
  List.filter (fun r => r_request_id r =? requestID)%string rows.

Definition PendingByRequest (requestID : string) (w : World)
    : World * Res (list Quote) :=
  let w1 := emit (EvQueryQuotes requestID) w in
  match db_fault env (tick w) with
  | Some e => (w1, Err e)
  | None => (w1, Ok (map quote_of_row (rows_of_request requestID (quotes w))))
  end.

(** *** [suppliers.Store] *)

Definition Store_List (w : World) : World * Res (list Supplier) :=
  let w1 := emit EvListSuppliers w in
  match db_fault env (tick w) with
  | Some e => (w1, Err e)
  | None => (w1, Ok (order_by_name (List.filter sup_Active (suppliers w))))
  end.

(** *** [memory.Store] *)

Definition has_purchase (id : string) (rows : list PurchaseRecord) : bool :=
  existsb (fun r => pr_ID r =? id)%string rows.

Definition memory_Save (rec : PurchaseRecord) (w : World)
    : World * option error :=
  let '(w1, id) :=
    if (pr_ID rec =? "")%string then uuid_New w else (w, pr_ID rec) in
  let created :=
    match pr_CreatedAt rec with None => Some (clock w1) | Some t => Some t end in
  let row :=
    {| pr_ID := id; pr_Description := pr_Description rec;
       pr_Items := pr_Items rec; pr_ChosenSupplier := pr_ChosenSupplier rec;
       pr_TotalPrice := pr_TotalPrice rec; pr_CreatedAt := created |} in
  let w2 := emit EvSavePurchase w1 in
  match db_fault env (tick w1) with
  | Some e => (w2, Some e)
  | None =>
      if has_purchase id (purchase_memory w1)
      then (w2, Some "UNIQUE constraint failed: purchase_memory.id")
      else (set_purchase_memory (purchase_memory w1 ++ [row]) w2, None)
  end.

(** *** [whatsapp.MessageSender] *)

Definition Send (s : MessageSender) (phone message : string) (w : World)
    : World * option error :=
  let w1 := emit (EvSend phone message) w in
  match s with
  | MockSender => (set_mock_sent (mock_sent w ++ [(phone, message)]) w1, None)
  | RealSender =>
      match send_fault env (tick w) with
      | Some e => (w1, Some ("send to " +:+ normalizePhone phone +:+ ": " +:+ e))
      | None => (w1, None)
      end
  end.

(** *** [claude.Client.ChatWithTools] *)

(** [buildParams]: the initial message history. *)
Definition buildParams (req : ChatRequest) : list Message :=
  (if (System req =? "")%string then [] else [SystemMessage (System req)])
  ++ [UserMessage (User req)].

Section Chat.

(** The executor is a Go closure over a variable of the caller; [St] is the
    type of that variable and the executor returns its new value. *)
Context {St : Type}.
Variable executor : string -> string -> St -> St * Res string.

(** One iteration of the loop over [choice.Message.ToolCalls]: a failing
    executor is reported to the model as ["error: ..."], not to the caller. *)
Definition run_tool (acc : St * list Message) (tc : ToolCall)
    : St * list Message :=
  let '(s, msgs) := acc in
  let '(s', r) := executor (tc_Name tc) (tc_Arguments tc) s in
  let content := match r with Ok result => result | Err e => "error: " +:+ e end in
  (s', msgs ++ [ToolMessage content (tc_ID tc)]).

(** The [for { ... }] loop; [None] when [fuel] rounds were not enough. *)
Fixpoint chat_loop (fuel : nat) (tools : list string) (msgs : list Message)
    (s : St) (w : World) : option (World * St * Res string) :=
  match fuel with
  | O => None
  | S fuel' =>
      let w1 := emit (EvChat msgs tools) w in
      match completions env (tick w) with
      | ApiError e => Some (w1, s, Err ("openrouter api: " +:+ e))
      | ApiOk [] => Some (w1, s, Err "empty response")
      | ApiOk (choice :: _) =>
          if (FinishReason choice =? "stop")%string
             || (length (ToolCalls choice) =? 0)%nat
          then Some (w1, s, Ok (Content choice))
          else
            let '(s', msgs') :=
              fold_left run_tool (ToolCalls choice)
                        (s, msgs ++ [AssistantMessage choice]) in
            chat_loop fuel' tools msgs' s' w1
      end
  end.

Definition ChatWithTools (fuel : nat) (req : ChatRequest) (s : St) (w : World)
    : option (World * St * Res string) :=
  chat_loop fuel (Tools req) (buildParams req) s w.

End Chat.

(** *** [comprador.QuoteManager] *)

Definition parse_executor (name input : string) (items : list ParsedItem)
    : list ParsedItem * Res string :=
  match unmarshal_items env input with
  | Err e => (items, Err e)
  | Ok result => (result, Ok "ok")
  end.

Definition ParseRequest (fuel : nat) (description : string) (w : World)
    : option (World * Res QuoteRequest) :=
  let req :=
    {| System := "Você é um assistente de compras. Interprete pedidos de compra e extraia itens com quantidades precisas.";
       User := PromptParse description;
       Tools := ["parse_purchase_request"] |} in
  match ChatWithTools parse_executor fuel req [] w with
  | None => None
  | Some (w1, _, Err e) => Some (w1, Err ("parse request: " +:+ e))
  | Some (w1, items, Ok _) =>
      let '(w2, id) := uuid_New w1 in
      Some (w2, Ok {| req_ID := id;
                      req_Description := description;
                      req_Items := items;
                      req_Urgent := false;
                      req_Timeout := 0 |})
  end.

Definition message_executor (name input : string) (message : string)
    : string * Res string :=
  match unmarshal_message env input with
  | Err e => (message, Err e)
  | Ok result => (result, Ok "ok")
  end.

(** The fallback text of [composeMessage]. *)
Definition fallback_message (req : QuoteRequest) (sup : Supplier) : string :=
  let lines :=
    ["Olá " +:+ sup_Name sup +:+ "! Preciso de uma cotação para os seguintes itens:"]
    ++ map (fun it => "- " +:+ pi_Name it +:+ ": " +:+ fmt_f0 env (pi_Qty it)
                      +:+ " " +:+ pi_Unit it) (req_Items req)
    ++ [newline +:+ "Por favor, informe o preço unitário e prazo de entrega. Obrigado!"] in
  String.concat newline lines.

Definition composeMessage (fuel : nat) (req : QuoteRequest) (sup : Supplier)
    (w : World) : option (World * Res string) :=
  let creq :=
    {| System := "Você cria mensagens de WhatsApp para cotação de preços com fornecedores locais. Seja direto e profissional.";
       User := PromptCompose (sup_Name sup) (req_Items req);
       Tools := ["compose_quote_message"] |} in
  match ChatWithTools message_executor fuel creq "" w with
  | None => None
  | Some (w1, _, Err e) => Some (w1, Err e)
  | Some (w1, message, Ok _) =>
      if (message =? "")%string
      then Some (w1, Ok (fallback_message req sup))
      else Some (w1, Ok message)
  end.

Definition quote_item (it : ParsedItem) : QuoteItem :=
  {| qi_Name := pi_Name it; qi_Qty := pi_Qty it; qi_Unit := pi_Unit it;
     qi_Price := 0%Q |}.

(** The [suppliers.Quote] value handed to [CreateQuote] by [SendQuotes]. *)
Definition new_quote (id : string) (req : QuoteRequest) (sup : Supplier)
    (now : Z) : Quote :=
  {| q_ID := id;
     q_RequestID := req_ID req;
     q_SupplierID := sup_ID sup;
     q_Items := map quote_item (req_Items req);
     q_Response := "";
     q_Price := 0%Q;
     q_Status := "";
     q_CreatedAt := now;
     q_RespondedAt := None |}.

Fixpoint SendQuotes (fuel : nat) (snd_ : MessageSender) (req : QuoteRequest)
    (sups : list Supplier) (w : World) : option (World * option error) :=
  match sups with
  | [] => Some (w, None)
  | sup :: rest =>
      match composeMessage fuel req sup w with
      | None => None
      | Some (w1, Err e) =>
          Some (w1, Some ("compose message for " +:+ sup_Name sup +:+ ": " +:+ e))
      | Some (w1, Ok msg) =>
          match Send snd_ (sup_Phone sup) msg w1 with
          | (w2, Some e) =>
              Some (w2, Some ("send to " +:+ sup_Name sup +:+ ": " +:+ e))
          | (w2, None) =>
              let '(w3, id) := uuid_New w2 in
              match CreateQuote (new_quote id req sup (clock w3)) w3 with
              | (w4, Some e) => Some (w4, Some ("save quote: " +:+ e))
              | (w4, None) => SendQuotes fuel snd_ req rest w4
              end
          end
      end
  end.

Definition zero_comparison : QuoteComparison :=
  {| Recommendation := ""; BestSupplier := ""; TotalPrice := 0%Q; Table := "" |}.

Definition compare_executor (name input : string) (result : QuoteComparison)
    : QuoteComparison * Res string :=
  match unmarshal_comparison env input with
  | Err e => (result, Err e)
  | Ok r => (r, Ok "ok")
  end.

Definition CompareQuotes (fuel : nat) (req : QuoteRequest)
    (quotes : list Quote) (w : World) : option (World * Res QuoteComparison) :=
  if (length quotes =? 0)%nat
  then Some (w, Ok {| Recommendation := "Nenhuma cotação recebida.";
                      BestSupplier := ""; TotalPrice := 0%Q; Table := "" |})
  else
    let creq :=
      {| System := "Você é um especialista em compras. Analise cotações e recomende a melhor opção custo-benefício.";
         User := PromptCompare (req_Description req) quotes;
         Tools := ["compare_quotes"] |} in
    match ChatWithTools compare_executor fuel creq zero_comparison w with
    | None => None
    | Some (w1, _, Err e) => Some (w1, Err ("compare quotes: " +:+ e))
    | Some (w1, result, Ok _) => Some (w1, Ok result)
    end.

(** *** [suppliers.Matcher] *)

Definition match_executor (name input : string) (matchedIDs : list MatchedID)
    : list MatchedID * Res string :=
  if negb (name =? "match_suppliers")%string
  then (matchedIDs, Err ("unknown tool: " +:+ name))
  else
    match unmarshal_matches env input with
    | Err e => (matchedIDs, Err e)
    | Ok result => (result, Ok "ok")
    end.

(** [supIndex]: the listing keyed by supplier identifier. *)
Definition build_index (all : list Supplier) : gmap string Supplier :=
  fold_left (fun idx s => <[sup_ID s := s]> idx) all ∅.

(** One iteration of the loop over [matchedIDs]; [seen] is a
    [map[string]bool], a missing key reads as [false]. *)
Definition match_step (supIndex : gmap string Supplier)
    (acc : gmap string bool * list MatchResult) (m : MatchedID)
    : gmap string bool * list MatchResult :=
  let '(seen, results) := acc in
  if default false (seen !! SupplierID m) then acc
  else
    match supIndex !! SupplierID m with
    | None => acc
    | Some sup =>
        (<[SupplierID m := true]> seen,
         results ++ [{| mr_Supplier := sup; mr_Categories := [];
                        mr_Reason := Reason m |}])
    end.

Definition match_results (all : list Supplier) (matchedIDs : list MatchedID)
    : list MatchResult :=
  snd (fold_left (match_step (build_index all)) matchedIDs (∅, [])).

Definition Match (fuel : nat) (items : list string) (city : string)
    (w : World) : option (World * Res (list MatchResult)) :=
  match Store_List w with
  | (w1, Err e) => Some (w1, Err ("list suppliers: " +:+ e))
  | (w1, Ok all) =>
      if (length all =? 0)%nat then Some (w1, Ok [])
      else
        let creq :=
          {| System := "Você é um especialista em compras locais.";
             User := PromptMatch items all city;
             Tools := ["match_suppliers"] |} in
        match ChatWithTools match_executor fuel creq [] w1 with
        | None => None
        | Some (w2, _, Err e) => Some (w2, Err ("claude match: " +:+ e))
        | Some (w2, matchedIDs, Ok _) =>
            Some (w2, Ok (match_results all matchedIDs))
        end
  end.

(** *** The response correlator *)

(** Modelled from the spec: [Store.ByPhone] is called by [handleIncoming]
    and is not among the sources.  The spec has the correlator "resolve the
    sender address to a Counterparty via the directory"; like its sibling
    [Store.Get] it is a single-row query that yields no supplier when no row
    matches. *)
Definition ByPhone (phone : string) (w : World)
    : World * Res (option Supplier) :=
  let w1 := emit (EvSupplierByPhone phone) w in
  match db_fault env (tick w) with
  | Some e => (w1, Err e)
  | None => (w1, Ok (find (fun s => sup_Phone s =? phone)%string (suppliers w)))
  end.

(** Modelled from the spec: the "pending Quote Unit for that counterparty"
    that [UpdateBySupplier] looks for. *)
Definition pending_of (supplierID : string) (r : QuoteRow) : bool :=
  ((r_supplier_id r =? supplierID) && (r_status r =? "pending"))%string.

(** Modelled from the spec: the update [UpdateBySupplier] makes to the unit
    it picks, "status received" and "store the reply text", with the response
    time of the data model; the price column is left as it is. *)
Definition receive_row (response : string) (now : Z) (r : QuoteRow)
    : QuoteRow :=
  {| r_id := r_id r;
     r_request_id := r_request_id r;
     r_supplier_id := r_supplier_id r;
     r_items := r_items r;
     r_response := Some response;
     r_price := r_price r;
     r_status := "received";
     r_created_at := r_created_at r;
     r_responded_at := Some now |}.

(** Modelled from the spec: the choice of unit made by [UpdateBySupplier],
    "the single most recently created pending unit for that counterparty",
    that is the last one in insertion order; [None] when there is none. *)
Fixpoint receive_latest (supplierID response : string) (now : Z)
    (rows : list QuoteRow) : option (list QuoteRow) :=
  match rows with
  | [] => None
  | r :: rest =>
      match receive_latest supplierID response now rest with
      | Some rest' => Some (r :: rest')
      | None =>
          if pending_of supplierID r
          then Some (receive_row response now r :: rest)
          else None
      end
  end.

(** Modelled from the spec: [QuoteStore.UpdateBySupplier] is called by
    [handleIncoming] and is not among the sources.  The spec has it "update
    the most relevant pending Quote Unit for that counterparty to status
    received and store the reply text", with the most recently created
    pending unit as the default policy; when the supplier has no pending
    unit the statement touches no row, which is not an error. *)
Definition UpdateBySupplier (supplierID response : string) (w : World)
    : World * option error :=
  let now := clock w in
  let w1 := emit (EvUpdateBySupplier supplierID) w in
  match db_fault env (tick w) with
  | Some e => (w1, Some e)
  | None =>
      match receive_latest supplierID response now (quotes w) with
      | Some rows => (set_quotes rows w1, None)
      | None => (w1, None)
      end
  end.

(** [Agent.handleIncoming] returns nothing; a failed update is only printed. *)
Definition handleIncoming (from msg : string) (w : World) : World :=
  match ByPhone from w with
  | (w1, Err _) => w1
  | (w1, Ok None) => w1
  | (w1, Ok (Some sup)) => fst (UpdateBySupplier (sup_ID sup) msg w1)
  end.

(** *** [Agent.Quote], named [Agent_Quote] next to the record [Quote] *)

(** [time.Sleep(d)]: at least [d] passes, and the channel's delivery runs
    [handleIncoming] on what arrived meanwhile if the handler is registered. *)
Definition deliver (a : Agent) (msgs : list (string * string)) (w : World)
    : World :=
  if listening a
  then fold_left (fun w' m => handleIncoming (fst m) (snd m) w') msgs w
  else w.

Definition Sleep (a : Agent) (d : Z) (w : World) : World :=
  deliver a (inbox env (tick w)) (advance d (emit (EvSleep d) w)).

Definition quote_timeout (a : Agent) (urgent : bool) : Z :=
  if urgent then 5 * Duration.Minute else QuoteTimeout (cfg a).

Definition is_received (q : Quote) : bool := (q_Status q =? "received")%string.

Definition count_received (qs : list Quote) : nat :=
  length (List.filter is_received qs).

(** Step 4, the loop [for time.Now().Before(deadline) { ... }]. *)
Fixpoint wait_loop (fuel : nat) (a : Agent) (requestID : string)
    (expected : nat) (deadline : Z) (w : World)
    : option (World * option error) :=
  match fuel with
  | O => None
  | S fuel' =>
      if clock w <? deadline then
        match PendingByRequest requestID w with
        | (w1, Err e) => Some (w1, Some e)
        | (w1, Ok qs) =>
            if (count_received qs =? expected)%nat then Some (w1, None)
            else wait_loop fuel' a requestID expected deadline
                           (Sleep a (10 * Duration.Second) w1)
        end
      else Some (w, None)
  end.

(** Step 5, first half: the snapshot read after the loop, whose error is
    dropped, and its received units. *)
Definition final_snapshot (requestID : string) (w : World)
    : World * list Quote :=
  match PendingByRequest requestID w with
  | (w1, Ok qs) => (w1, List.filter is_received qs)
  | (w1, Err _) => (w1, [])
  end.

(** Steps 4 to 6: what [Agent_Quote] does after a successful dispatch when not in
    dry-run mode. *)
Definition wait_and_decide (fuel : nat) (a : Agent) (description : string)
    (req : QuoteRequest) (itemNames : list string) (expected : nat)
    (timeout : Z) (w : World) : option (World * option error) :=
  let deadline := clock w + timeout in
  match wait_loop fuel a (req_ID req) expected deadline w with
  | None => None
  | Some (w1, Some e) => Some (w1, Some e)
  | Some (w1, None) =>
      let '(w2, received) := final_snapshot (req_ID req) w1 in
      if (length received =? 0)%nat then Some (w2, None)
      else
        match CompareQuotes fuel req received w2 with
        | None => None
        | Some (w3, Err e) => Some (w3, Some ("comparar cotações: " +:+ e))
        | Some (w3, Ok comparison) =>
            let '(w4, _) :=
              memory_Save {| pr_ID := ""; pr_Description := description;
                             pr_Items := itemNames;
                             pr_ChosenSupplier := BestSupplier comparison;
                             pr_TotalPrice := TotalPrice comparison;
                             pr_CreatedAt := None |} w3 in
            Some (w4, None)
        end
  end.

Definition with_urgency (req : QuoteRequest) (urgent : bool) (timeout : Z)
    : QuoteRequest :=
  {| req_ID := req_ID req; req_Description := req_Description req;
     req_Items := req_Items req; req_Urgent := urgent;
     req_Timeout := timeout |}.

Definition Agent_Quote (fuel : nat) (a : Agent) (description : string)
    (urgent : bool) (w : World) : option (World * option error) :=
  let timeout := quote_timeout a urgent in
  match ParseRequest fuel description w with
  | None => None
  | Some (w1, Err e) => Some (w1, Some ("analisar pedido: " +:+ e))
  | Some (w1, Ok req0) =>
      let req := with_urgency req0 urgent timeout in
      let itemNames := map pi_Name (req_Items req) in
      match Match fuel itemNames (City (cfg a)) w1 with
      | None => None
      | Some (w2, Err e) => Some (w2, Some ("buscar fornecedores: " +:+ e))
      | Some (w2, Ok sups) =>
          if (length sups =? 0)%nat then Some (w2, None)
          else
            let supList := map mr_Supplier sups in
            match SendQuotes fuel (sender a) req supList w2 with
            | None => None
            | Some (w3, Some e) =>
                Some (w3, Some ("enviar cotações: " +:+ e))
            | Some (w3, None) =>
                if DryRun (cfg a) then Some (w3, None)
                else wait_and_decide fuel a description req itemNames
                                     (length sups) timeout w3
            end
      end
  end.

End Engine.

(** ** Reading the matcher's contract as a function

    The contract of the matcher in words: drop the identifiers that are not
    in the directory, drop repeated identifiers, keep the order in which
    identifiers are first seen. *)

Fixpoint dedup_first (seen ids : list string) : list string :=
  match ids with
  | [] => []
  | x :: rest =>
      if existsb (String.eqb x) seen then dedup_first seen rest
      else x :: dedup_first (x :: seen) rest
  end.

Definition in_directory (all : list Supplier) (id : string) : bool :=
  existsb (fun s => sup_ID s =? id)%string all.


(** ** Predicates used by the statements *)

(** The API answered with a first choice that asks for tools and is not a
    final answer, so that [ChatWithTools] goes round once more. *)
Definition continues (r : ApiResult) : bool :=
  match r with
  | ApiOk (c :: _) =>
      negb ((FinishReason c =? "stop")%string
            || (length (ToolCalls c) =? 0)%nat)
  | _ => false
  end.

(** The API answered with a first choice that ends the loop. *)
Definition stops (r : ApiResult) : bool :=
  match r with
  | ApiOk (c :: _) =>
      (FinishReason c =? "stop")%string || (length (ToolCalls c) =? 0)%nat
  | _ => false
  end.


(** Events that belong to parsing, matching and dispatching: everything but
    reading the quotes back, sleeping, the ranking request and the save to
    purchase memory. *)
Definition dispatch_event (e : Event) : bool :=
  match e with
  | EvChat _ tools =>
      negb (existsb (String.eqb "compare_quotes") tools)
  | EvSend _ _ | EvUuid | EvInsertQuote _ | EvListSuppliers => true
  | _ => false
  end.

(** [r] is the unit created for supplier [sup] of request [req]. *)
Definition unit_for (req : QuoteRequest) (r : QuoteRow) (sup : Supplier)
    : Prop :=
  r_request_id r = req_ID req /\ r_supplier_id r = sup_ID sup
  /\ r_status r = "pending" /\ r_response r = None.

(** Worlds along the wait loop: the world at the top of the next iteration,
    and after [n] iterations. *)
Definition poll_next (env : Env) (a : Agent) (requestID : string) (w : World)
    : World :=
  Sleep env a (10 * Duration.Second) (fst (PendingByRequest env requestID w)).

Definition polls (env : Env) (a : Agent) (requestID : string) (n : nat)
    (w : World) : World :=
  Nat.iter n (poll_next env a requestID) w.

(** Number of units of the request that the store holds as received. *)
Definition received_in_store (requestID : string) (w : World) : nat :=
  count_received (map quote_of_row (rows_of_request requestID (quotes w))).

(** Fuel that lets the wait loop run to its end from [w]: one iteration per
    started polling interval before the deadline, and the final test. *)
Definition wait_fuel (deadline : Z) (w : World) : nat :=
  (Z.to_nat ((deadline - clock w + (10 * Duration.Second - 1))
             / (10 * Duration.Second)) + 1)%nat.

(** At the top of an iteration in world [w] the loop goes on: the deadline
    is ahead, the store can be read and the received count is not yet the
    expected one. *)
Definition keeps_waiting (env : Env) (requestID : string) (expected : nat)
    (deadline : Z) (w : World) : Prop :=
  clock w < deadline
  /\ db_fault env (tick w) = None
  /\ received_in_store requestID w <> expected.

(** How the loop leaves, entered at the top of an iteration in world [w]:
    the deadline is reached; or all expected units are received; or the
    store cannot be read. *)
Definition leaves (env : Env) (requestID : string) (expected : nat)
    (deadline : Z) (w w' : World) (r : option error) : Prop :=
  (deadline <= clock w /\ w' = w /\ r = None)
  \/ (clock w < deadline
      /\ db_fault env (tick w) = None
      /\ received_in_store requestID w = expected
      /\ w' = fst (PendingByRequest env requestID w) /\ r = None)
  \/ (clock w < deadline
      /\ w' = fst (PendingByRequest env requestID w)
      /\ exists e, db_fault env (tick w) = Some e /\ r = Some e).


(** The directory entry an address resolves to. *)
Definition resolve (phone : string) (w : World) : option Supplier :=
  find (fun s => sup_Phone s =? phone)%string (suppliers w).

(** ** Concrete environments and worlds *)

Fixpoint uuid_of (n : nat) : string :=
  match n with
  | O => "q"
  | S k => String "i" (uuid_of k)
  end.

Definition final_choice : Choice :=
  {| FinishReason := "stop"; Content := "feito"; ToolCalls := [] |}.

Definition tool_choice (name args : string) : Choice :=
  {| FinishReason := "tool_calls"; Content := "";
     ToolCalls := [{| tc_ID := "call_1"; tc_Name := name;
                      tc_Arguments := args |}] |}.

Definition cimento : ParsedItem :=
  {| pi_Name := "cimento"; pi_Qty := 10%Q; pi_Unit := "saco"; pi_Note := "" |}.

(** An environment in which nothing fails: the model answers the parse and
    match requests through their tools and everything else directly. *)
Definition env_calm : Env :=
  {| completions := fun n =>
       match n with
       | 0%nat => ApiOk [tool_choice "parse_purchase_request" "items"]
       | 4%nat => ApiOk [tool_choice "match_suppliers" "matches"]
       | _ => ApiOk [final_choice]
       end;
     send_fault := fun _ => None;
     db_fault := fun _ => None;
     uuid := uuid_of;
     lag := fun _ => 0%N;
     inbox := fun _ => [];
     unmarshal_items := fun _ => Ok [cimento];
     unmarshal_message := fun _ => Err "unexpected end of JSON input";
     unmarshal_comparison := fun _ => Err "unexpected end of JSON input";
     unmarshal_matches := fun _ =>
       Ok [{| SupplierID := "a"; Reason := "vende cimento" |};
           {| SupplierID := "x"; Reason := "desconhecido" |};
           {| SupplierID := "a"; Reason := "de novo" |};
           {| SupplierID := "b"; Reason := "perto" |}];
     fmt_f0 := fun _ => "10" |}.

(** As [env_calm], but the interaction numbered [n] with the API fails. *)
Definition env_api_down (n : nat) : Env :=
  {| completions := fun i =>
       if (i =? n)%nat then ApiError "connection reset"
       else completions env_calm i;
     send_fault := send_fault env_calm;
     db_fault := db_fault env_calm;
     uuid := uuid env_calm;
     lag := lag env_calm;
     inbox := inbox env_calm;
     unmarshal_items := unmarshal_items env_calm;
     unmarshal_message := unmarshal_message env_calm;
     unmarshal_comparison := unmarshal_comparison env_calm;
     unmarshal_matches := unmarshal_matches env_calm;
     fmt_f0 := fmt_f0 env_calm |}.

(** As [env_calm], but every API response comes back without choices. *)
Definition env_no_choice : Env :=
  {| completions := fun _ => ApiOk [];
     send_fault := send_fault env_calm;
     db_fault := db_fault env_calm;
     uuid := uuid env_calm;
     lag := lag env_calm;
     inbox := inbox env_calm;
     unmarshal_items := unmarshal_items env_calm;
     unmarshal_message := unmarshal_message env_calm;
     unmarshal_comparison := unmarshal_comparison env_calm;
     unmarshal_matches := unmarshal_matches env_calm;
     fmt_f0 := fmt_f0 env_calm |}.

(** As [env_calm], but supplier "111" answers during the first sleep. *)
Definition env_reply : Env :=
  {| completions := fun _ => ApiOk [final_choice];
     send_fault := send_fault env_calm;
     db_fault := db_fault env_calm;
     uuid := uuid env_calm;
     lag := lag env_calm;
     inbox := fun n =>
       match n with
       | 1%nat => [("111", "R$ 32 o saco")]
       | _ => []
       end;
     unmarshal_items := unmarshal_items env_calm;
     unmarshal_message := unmarshal_message env_calm;
     unmarshal_comparison := unmarshal_comparison env_calm;
     unmarshal_matches := unmarshal_matches env_calm;
     fmt_f0 := fmt_f0 env_calm |}.

Definition supplier (id name phone : string) : Supplier :=
  {| sup_ID := id; sup_Name := name; sup_Phone := phone;
     sup_City := "local"; sup_Categories := ["construcao"];
     sup_Rating := 4%Q; sup_Active := true |}.

Definition sup_a : Supplier := supplier "a" "Casa A" "111".
Definition sup_b : Supplier := supplier "b" "Casa B" "222".
Definition sup_c : Supplier := supplier "c" "Casa C" "333".

Definition world0 : World :=
  {| quotes := []; suppliers := [sup_a; sup_b; sup_c];
     purchase_memory := []; mock_sent := [];
     clock := 0; tick := 0; log := [] |}.

Definition request0 : QuoteRequest :=
  {| req_ID := "r1"; req_Description := "10 sacos de cimento";
     req_Items := [cimento]; req_Urgent := false;
     req_Timeout := 30 * Duration.Minute |}.

Definition row (id requestID supplierID status : string) : QuoteRow :=
  {| r_id := id; r_request_id := requestID; r_supplier_id := supplierID;
     r_items := []; r_response := None; r_price := None;
     r_status := status; r_created_at := 0; r_responded_at := None |}.

Definition with_quotes (rows : list QuoteRow) (w : World) : World :=
  set_quotes rows w.


Definition quote_a : Quote :=
  {| q_ID := "q1"; q_RequestID := "r1"; q_SupplierID := "a"; q_Items := [];
     q_Response := "R$ 32 o saco"; q_Price := 0%Q; q_Status := "received";
     q_CreatedAt := 0; q_RespondedAt := None |}.

(** A store in which supplier "a" has answered its only unit already. *)
Definition world_answered : World :=
  with_quotes
    [respond_row "R$ 30 o saco" 0%Q 0 (row "q1" "r1" "a" "pending")] world0.

(** A store with two pending units of supplier "a" and one of "b". *)
Definition world_pending : World :=
  with_quotes
    [row "q1" "r1" "a" "pending"; row "q2" "r2" "a" "pending";
     row "q3" "r2" "b" "pending"] world0.

(** A store with one pending unit, of request "r1" and supplier "a". *)
Definition world_one_pending : World :=
  with_quotes [row "q1" "r1" "a" "pending"] world0.

(** A configuration whose timeout is three minutes. *)
Definition short_config : Config :=
  {| City := "local"; QuoteTimeout := 3 * Duration.Minute; DryRun := false;
     WhatsAppDB := "data/whatsapp.db" |}.

(** [w'] is reached from [w] by interactions that all satisfy [P]; the
    supplier directory and the purchase memory are untouched and the clock
    has not gone back. *)
Definition evolves (P : Event -> bool) (w w' : World) : Prop :=
  suppliers w' = suppliers w
  /\ purchase_memory w' = purchase_memory w
  /\ clock w <= clock w'
  /\ exists evs, log w' = log w ++ evs /\ forallb P evs = true.

(** The supplier identifier of a match. *)
Definition result_id (r : MatchResult) : string := sup_ID (mr_Supplier r).

(** The (request, supplier) pair of a unit. *)
Definition pair_of (r : QuoteRow) : string * string :=
  (r_request_id r, r_supplier_id r).

(** ** Further operations of the supplier directory *)

(** [Store.ByCategory]: the listing filtered in Go.  [catSet] is a
    [map[string]bool]; the inner loop stops at the first category of the
    supplier found in it, so a supplier is appended at most once. *)
Definition catSet_of (categories : list string) : gmap string bool :=
  fold_left (fun m c => <[c := true]> m) categories ∅.

Fixpoint in_catSet (catSet : gmap string bool) (cats : list string) : bool :=
  match cats with
  | [] => false
  | c :: rest =>
      if default false (catSet !! c) then true else in_catSet catSet rest
  end.

Definition ByCategory (env : Env) (categories : list string) (w : World)
    : World * Res (list Supplier) :=
  match Store_List env w with
  | (w1, Err e) => (w1, Err e)
  | (w1, Ok all) =>
      let catSet := catSet_of categories in
      (w1, Ok (fold_left
                 (fun result sup =>
                    if in_catSet catSet (sup_Categories sup)
                    then result ++ [sup] else result)
                 all []))
  end.

(** The contract of [ByCategory] in words: the suppliers of the listing
    that have at least one of the given categories. *)
Definition shares_category (categories : list string) (sup : Supplier) : bool :=
  existsb (fun c => existsb (String.eqb c) categories) (sup_Categories sup).

(** [Store.Add], [Store.Get] and [Store.UpdateRating] act on table
    [suppliers] alone and are given as functions of the table: [fault] is
    the failure, if any, of the statement, and [fresh] what [uuid.New()]
    yields should it be called.  The [categories] column holds the JSON of
    the category list, which is stored here as the list itself. *)
Module SupplierTable.



Definition has_id (id : string) (rows : list Supplier) : bool :=
  existsb (fun s => sup_ID s =? id)%string rows.




End SupplierTable.

(** ** Further predicates *)


(** The tool calls of the response to interaction [t], and those of the [k]
    responses from [t] on. *)
Definition round_calls (env : Env) (t : nat) : list ToolCall :=
  match completions env t with
  | ApiOk (c :: _) => ToolCalls c
  | _ => []
  end.

Fixpoint calls_from (env : Env) (t k : nat) : list ToolCall :=
  match k with
  | O => []
  | S k' => round_calls env t ++ calls_from env (S t) k'
  end.

Definition parses (env : Env) (tc : ToolCall) : bool :=
  is_ok (unmarshal_comparison env (tc_Arguments tc)).

(** Events before any dispatch: no message sent, no unit inserted. *)
Definition predispatch_event (e : Event) : bool :=
  match e with
  | EvSend _ _ | EvInsertQuote _ => false
  | _ => true
  end.

Definition quote_ids (w : World) : list string := map r_id (quotes w).

(** ** Further concrete environments and worlds *)

(** As [env_calm], but the database statement numbered [n] fails. *)
Definition env_db_down (n : nat) : Env :=
  {| completions := completions env_calm;
     send_fault := send_fault env_calm;
     db_fault := fun i => if (i =? n)%nat then Some "database is locked" else None;
     uuid := uuid env_calm;
     lag := lag env_calm;
     inbox := inbox env_calm;
     unmarshal_items := unmarshal_items env_calm;
     unmarshal_message := unmarshal_message env_calm;
     unmarshal_comparison := unmarshal_comparison env_calm;
     unmarshal_matches := unmarshal_matches env_calm;
     fmt_f0 := fmt_f0 env_calm |}.

Definition best_a : QuoteComparison :=
  {| Recommendation := "Casa A tem o menor preço"; BestSupplier := "Casa A";
     TotalPrice := 320%Q; Table := "Casa A | 320" |}.

(** The model answers the first request with two tool calls, of which only
    the input "ranking" parses, and the second request directly. *)
Definition env_ranked : Env :=
  {| completions := fun n =>
       match n with
       | 0%nat =>
           ApiOk [ {| FinishReason := "tool_calls"; Content := "";
                      ToolCalls :=
                        [ {| tc_ID := "call_1"; tc_Name := "compare_quotes";
                             tc_Arguments := "ranking" |};
                          {| tc_ID := "call_2"; tc_Name := "compare_quotes";
                             tc_Arguments := "{" |} ] |} ]
       | _ => ApiOk [final_choice]
       end;
     send_fault := send_fault env_calm;
     db_fault := db_fault env_calm;
     uuid := uuid env_calm;
     lag := lag env_calm;
     inbox := inbox env_calm;
     unmarshal_items := unmarshal_items env_calm;
     unmarshal_message := unmarshal_message env_calm;
     unmarshal_comparison := fun input =>
       if (input =? "ranking")%string then Ok best_a
       else Err "unexpected end of JSON input";
     unmarshal_matches := unmarshal_matches env_calm;
     fmt_f0 := fmt_f0 env_calm |}.

(** The model answers the request numbered 1 through [match_suppliers]. *)
Definition env_match_first : Env :=
  {| completions := fun n =>
       match n with
       | 1%nat => ApiOk [tool_choice "match_suppliers" "matches"]
       | _ => ApiOk [final_choice]
       end;
     send_fault := send_fault env_calm;
     db_fault := db_fault env_calm;
     uuid := uuid env_calm;
     lag := lag env_calm;
     inbox := inbox env_calm;
     unmarshal_items := unmarshal_items env_calm;
     unmarshal_message := unmarshal_message env_calm;
     unmarshal_comparison := unmarshal_comparison env_calm;
     unmarshal_matches := unmarshal_matches env_calm;
     fmt_f0 := fmt_f0 env_calm |}.

(** A world whose directory has one supplier, inactive. *)
Definition world_no_supplier : World :=
  {| quotes := [];
     suppliers :=
       [ {| sup_ID := "d"; sup_Name := "Casa D"; sup_Phone := "444";
            sup_City := "local"; sup_Categories := [];
            sup_Rating := 0%Q; sup_Active := false |} ];
     purchase_memory := []; mock_sent := [];
     clock := 0; tick := 0; log := [] |}.


(** * Properties *)

(** ** Frame lemmas *)

Section Frames.

Variable env : Env.
Variable P : Event -> bool.

Lemma evolves_refl w : evolves P w w.
Proof.
  repeat split; try lia. exists []. rewrite app_nil_r. auto.
Qed.

Lemma evolves_trans w1 w2 w3 :
  evolves P w1 w2 -> evolves P w2 w3 -> evolves P w1 w3.
Proof.
  intros (Hs1 & Hp1 & Hc1 & evs1 & Hl1 & Hf1) (Hs2 & Hp2 & Hc2 & evs2 & Hl2 & Hf2).
  repeat split; try congruence; try lia.
  exists (evs1 ++ evs2). split.
  - rewrite Hl2, Hl1, app_assoc. reflexivity.
  - rewrite forallb_app, Hf1, Hf2. reflexivity.
Qed.

Lemma emit_evolves e w : P e = true -> evolves P w (emit env e w).
Proof.
  intros He. repeat split; simpl; try lia.
  exists [e]. split; [reflexivity|]. simpl. rewrite He. reflexivity.
Qed.

Lemma chat_loop_quiet {St : Type} (ex : string -> string -> St -> St * Res string)
    tools fuel : forall msgs s w w' s' r,
  (forall m, P (EvChat m tools) = true) ->
  chat_loop env ex fuel tools msgs s w = Some (w', s', r) ->
  evolves P w w' /\ quotes w' = quotes w.
Proof.
  induction fuel as [|fuel IH]; intros msgs s w w' s' r HP H; simpl in H.
  - discriminate.
  - destruct (completions env (tick w)) as [e|[|c cs]].
    + inversion H; subst. split; [apply emit_evolves; auto | reflexivity].
    + inversion H; subst. split; [apply emit_evolves; auto | reflexivity].
    + destruct ((FinishReason c =? "stop")%string || (length (ToolCalls c) =? 0)%nat).
      * inversion H; subst. split; [apply emit_evolves; auto | reflexivity].
      * destruct (fold_left _ _ _) as [s1 msgs1].
        apply IH in H; auto. destruct H as [Hev Hq]. split.
        -- eapply evolves_trans; [apply emit_evolves; apply HP | exact Hev].
        -- rewrite Hq. reflexivity.
Qed.

Lemma composeMessage_quiet fuel req sup w w' r :
  (forall m, P (EvChat m ["compose_quote_message"]) = true) ->
  composeMessage env fuel req sup w = Some (w', r) ->
  evolves P w w' /\ quotes w' = quotes w.
Proof.
  intros HP H. unfold composeMessage, ChatWithTools in H. simpl in H.
  destruct (chat_loop _ _ _ _ _ _ w) as [[[w1 m] [c|e]]|] eqn:Hc; try discriminate.
  - apply chat_loop_quiet in Hc; auto.
    destruct (m =? "")%string; inversion H; subst; exact Hc.
  - apply chat_loop_quiet in Hc; auto. inversion H; subst. exact Hc.
Qed.

Lemma Send_quiet s phone msg w w' r :
  (forall p m, P (EvSend p m) = true) ->
  Send env s phone msg w = (w', r) ->
  evolves P w w' /\ quotes w' = quotes w.
Proof.
  intros HP H. unfold Send in H. destruct s.
  - inversion H; subst. split; [|reflexivity].
    destruct (emit_evolves (EvSend phone msg) w (HP _ _)) as (? & ? & ? & ?).
    repeat split; auto.
  - destruct (send_fault env (tick w)); inversion H; subst;
      (split; [apply emit_evolves; auto | reflexivity]).
Qed.

Lemma uuid_New_quiet w w' id :
  P EvUuid = true ->
  uuid_New env w = (w', id) ->
  evolves P w w' /\ quotes w' = quotes w.
Proof.
  intros HP H. inversion H; subst. split; [apply emit_evolves; auto | reflexivity].
Qed.

Lemma CreateQuote_ok q w w' :
  P EvUuid = true ->
  (forall id, P (EvInsertQuote id) = true) ->
  CreateQuote env q w = (w', None) ->
  evolves P w w' /\ exists id, quotes w' = quotes w ++ [pending_row id q].
Proof.
  intros HU HI H. unfold CreateQuote in H.
  destruct (if (q_ID q =? "")%string then uuid_New env w else (w, q_ID q))
    as [w1 id] eqn:Hid.
  assert (Hw1 : evolves P w w1 /\ quotes w1 = quotes w).
  { destruct (q_ID q =? "")%string.
    - eapply uuid_New_quiet; eauto.
    - inversion Hid; subst. split; [apply evolves_refl | reflexivity]. }
  destruct Hw1 as [Hev Hq].
  destruct (db_fault env (tick w1)); [discriminate|].
  destruct (has_id id (quotes w1)); [discriminate|].
  inversion H; subst. split.
  - eapply evolves_trans; [exact Hev|].
    destruct (emit_evolves (EvInsertQuote id) w1 (HI id)) as (? & ? & ? & ?).
    repeat split; auto.
  - exists id. simpl. rewrite Hq. reflexivity.
Qed.

End Frames.

(** ** The dispatcher *)

Section Dispatch.

Variable env : Env.

Lemma SendQuotes_app fuel snd_ req pre rest : forall w,
  SendQuotes env fuel snd_ req (pre ++ rest) w =
  match SendQuotes env fuel snd_ req pre w with
  | Some (w1, None) => SendQuotes env fuel snd_ req rest w1
  | other => other
  end.
Proof.
  induction pre as [|sup pre IH]; intros w; simpl.
  - reflexivity.
  - destruct (composeMessage env fuel req sup w) as [[w1 [msg|e]]|]; try reflexivity.
    destruct (Send env snd_ (sup_Phone sup) msg w1) as [w2 [e|]]; try reflexivity.
    destruct (CreateQuote env _ _) as [w4 [e|]]; try reflexivity.
    apply IH.
Qed.

Lemma SendQuotes_ok (P : Event -> bool) fuel snd_ req sups : forall w w',
  (forall m, P (EvChat m ["compose_quote_message"]) = true) ->
  (forall p m, P (EvSend p m) = true) ->
  P EvUuid = true ->
  (forall id, P (EvInsertQuote id) = true) ->
  SendQuotes env fuel snd_ req sups w = Some (w', None) ->
  evolves P w w'
  /\ exists new, quotes w' = quotes w ++ new /\ Forall2 (unit_for req) new sups.
Proof.
  induction sups as [|sup rest IH]; intros w w' HC HS HU HI H; simpl in H.
  - inversion H; subst. split; [apply evolves_refl|].
    exists []. rewrite app_nil_r. split; [reflexivity | constructor].
  - destruct (composeMessage env fuel req sup w) as [[w1 [msg|e]]|] eqn:Hc;
      try discriminate.
    destruct (Send env snd_ (sup_Phone sup) msg w1) as [w2 [e|]] eqn:Hs;
      try discriminate.
    destruct (CreateQuote env _ _) as [w4 [e|]] eqn:Hq; try discriminate.
    apply (composeMessage_quiet env P) in Hc; auto. destruct Hc as [E1 Q1].
    apply (Send_quiet env P) in Hs; auto. destruct Hs as [E2 Q2].
    apply (CreateQuote_ok env P) in Hq; auto. destruct Hq as [E4 [id Q4]].
    simpl in Q4.
    apply IH in H; auto. destruct H as [E5 [new [Q5 F5]]].
    split.
    + eapply evolves_trans; [exact E1|].
      eapply evolves_trans; [exact E2|].
      eapply evolves_trans; [apply emit_evolves; exact HU|].
      eapply evolves_trans; [exact E4 | exact E5].
    + eexists (_ :: new). split.
      * rewrite Q5, Q4, Q2, Q1, <- app_assoc. reflexivity.
      * constructor; [|exact F5]. repeat split.
Qed.

Lemma units_supplier_ids req new sups :
  Forall2 (unit_for req) new sups ->
  map r_supplier_id new = map sup_ID sups.
Proof.
  induction 1 as [|r s new sups (_ & Hs & _) _ IH]; simpl; [reflexivity|].
  rewrite Hs, IH. reflexivity.
Qed.

Lemma units_pairs req new sups :
  Forall2 (unit_for req) new sups ->
  map pair_of new = map (fun s => (req_ID req, sup_ID s)) sups.
Proof.
  induction 1 as [|r s new sups (Hr & Hs & _) _ IH]; simpl; [reflexivity|].
  unfold pair_of at 1. rewrite Hr, Hs, IH. reflexivity.
Qed.

Lemma units_of_request req new sups :
  Forall2 (unit_for req) new sups ->
  rows_of_request (req_ID req) new = new.
Proof.
  unfold rows_of_request.
  induction 1 as [|r s new sups (Hr & _) _ IH]; simpl; [reflexivity|].
  rewrite Hr, String.eqb_refl, IH. reflexivity.
Qed.

Lemma units_pending req new sups :
  Forall2 (unit_for req) new sups ->
  Forall (fun r => r_status r = "pending" /\ r_request_id r = req_ID req) new.
Proof.
  induction 1 as [|r s new sups (Hr & _ & Hp & _) _ IH]; constructor; auto.
Qed.

(** C1. Abort on first error.  Let the suppliers before the k-th have been
    served ([SendQuotes] on them succeeds and reaches [w1]) and let composing
    or sending for the k-th fail, reaching [w2].  Then [SendQuotes] on the
    whole list returns an error in world [w2] itself, so nothing is done for
    the suppliers after the k-th; the store holds what it held plus one unit
    per supplier before the k-th, in order, and none for the k-th; when the
    request had no unit before, it has exactly k-1 afterwards. *)
Theorem SendQuotes_abort_on_first_error fuel snd_ req pre sup post w w1 w2 e :
  SendQuotes env fuel snd_ req pre w = Some (w1, None) ->
  (composeMessage env fuel req sup w1 = Some (w2, Err e)
   \/ exists w1' msg,
        composeMessage env fuel req sup w1 = Some (w1', Ok msg)
        /\ Send env snd_ (sup_Phone sup) msg w1' = (w2, Some e)) ->
  (exists e', SendQuotes env fuel snd_ req (pre ++ sup :: post) w
              = Some (w2, Some e'))
  /\ (exists new, quotes w2 = quotes w ++ new
                  /\ Forall2 (unit_for req) new pre)
  /\ (rows_of_request (req_ID req) (quotes w) = [] ->
      length (rows_of_request (req_ID req) (quotes w2)) = length pre).
Proof.
  intros Hpre Hfail.
  assert (Hrun : exists e', SendQuotes env fuel snd_ req (pre ++ sup :: post) w
                            = Some (w2, Some e')).
  { rewrite SendQuotes_app, Hpre. simpl.
    destruct Hfail as [Hc | (w1' & msg & Hc & Hs)]; rewrite Hc.
    - eauto.
    - rewrite Hs. eauto. }
  assert (Hq2 : quotes w2 = quotes w1).
  { destruct Hfail as [Hc | (w1' & msg & Hc & Hs)].
    - apply (composeMessage_quiet env (fun _ => true)) in Hc; auto. tauto.
    - apply (composeMessage_quiet env (fun _ => true)) in Hc; auto.
      apply (Send_quiet env (fun _ => true)) in Hs; auto.
      destruct Hc as [_ Hc], Hs as [_ Hs]. congruence. }
  apply (SendQuotes_ok (fun _ => true)) in Hpre; auto.
  destruct Hpre as [_ [new [Hq1 Hnew]]].
  split; [exact Hrun|]. split.
  - exists new. split; [congruence | exact Hnew].
  - intros Hnone. rewrite Hq2, Hq1.
    pose proof (units_of_request req new pre Hnew) as Hown.
    unfold rows_of_request in *.
    rewrite List.filter_app, Hnone, Hown. simpl.
    eapply Forall2_length; eauto.
Qed.

(** C2. A successful [SendQuotes] to suppliers with pairwise distinct
    identifiers appends exactly one unit per supplier to the store: as many
    units as suppliers, each "pending" and of this request, for the
    suppliers in order, and no two of them with the same (request, supplier)
    pair. *)
Theorem SendQuotes_one_pending_unit_per_supplier fuel snd_ req sups w w' :
  NoDup (map sup_ID sups) ->
  SendQuotes env fuel snd_ req sups w = Some (w', None) ->
  exists new,
    quotes w' = quotes w ++ new
    /\ length new = length sups
    /\ Forall (fun r => r_status r = "pending" /\ r_request_id r = req_ID req) new
    /\ map r_supplier_id new = map sup_ID sups
    /\ NoDup (map pair_of new).
Proof.
  intros Hnd H.
  apply (SendQuotes_ok (fun _ => true)) in H; auto.
  destruct H as [_ [new [Hq Hnew]]].
  exists new. split; [exact Hq|]. split; [eapply Forall2_length; eauto|].
  split; [eapply units_pending; eauto|].
  split; [eapply units_supplier_ids; eauto|].
  rewrite (units_pairs req new sups Hnew).
  rewrite <- (map_map sup_ID (fun i => (req_ID req, i))).
  apply NoDup_fmap_2; [|exact Hnd].
  intros x y Hxy. congruence.
Qed.

End Dispatch.

Lemma SendQuotes_abort_on_first_error_witness :
  exists w2 e',
    SendQuotes (env_api_down 5) 5 MockSender request0
               ([sup_a] ++ sup_b :: [sup_c]) world0 = Some (w2, Some e')
    /\ length (rows_of_request (req_ID request0) (quotes w2)) = 1%nat.
Proof.
  edestruct (SendQuotes_abort_on_first_error (env_api_down 5) 5 MockSender
               request0 [sup_a] sup_b [sup_c] world0) as [[e' He] [_ Hn]].
  - vm_compute. reflexivity.
  - left. vm_compute. reflexivity.
  - eexists. exists e'. split; [exact He|]. apply Hn. reflexivity.
Defined.

Lemma SendQuotes_one_pending_unit_per_supplier_witness :
  exists w' new,
    SendQuotes env_calm 5 MockSender request0 [sup_a; sup_b; sup_c] world0
      = Some (w', None)
    /\ quotes w' = quotes world0 ++ new
    /\ length new = 3%nat
    /\ NoDup (map pair_of new).
Proof.
  edestruct (SendQuotes_one_pending_unit_per_supplier env_calm 5 MockSender
               request0 [sup_a; sup_b; sup_c] world0)
    as [new (Hq & Hl & _ & _ & Hnd)].
  - simpl.
    repeat (apply NoDup_cons_2;
            [rewrite ?not_elem_of_cons; repeat split; try discriminate;
             apply not_elem_of_nil|]).
    apply NoDup_nil_2.
  - vm_compute. reflexivity.
  - eexists. exists new. split; [vm_compute; reflexivity|].
    split; [exact Hq|]. split; assumption.
Defined.

(** ** The matcher *)

Section Matching.

Lemma index_fold_keys (all : list Supplier) : forall (m : gmap string Supplier) id s,
  (forall k v, m !! k = Some v -> sup_ID v = k) ->
  fold_left (fun idx s => <[sup_ID s := s]> idx) all m !! id = Some s ->
  sup_ID s = id.
Proof.
  induction all as [|x all IH]; intros m id s Hm H; simpl in H.
  - eauto.
  - eapply IH; [|exact H]. intros k v Hk.
    destruct (decide (sup_ID x = k)) as [Heq|Hne].
    + subst k. rewrite lookup_insert_eq in Hk. congruence.
    + rewrite lookup_insert_ne in Hk by exact Hne. eauto.
Qed.

Lemma index_fold_dom (all : list Supplier) : forall (m : gmap string Supplier) id,
  fold_left (fun idx s => <[sup_ID s := s]> idx) all m !! id = None <->
  m !! id = None /\ in_directory all id = false.
Proof.
  induction all as [|x all IH]; intros m id; simpl.
  - tauto.
  - rewrite IH. destruct (String.eqb_spec (sup_ID x) id) as [->|Hne]; simpl.
    + rewrite lookup_insert_eq. split; intros [? ?]; discriminate.
    + rewrite lookup_insert_ne by exact Hne. tauto.
Qed.

Lemma build_index_None all id :
  build_index all !! id = None -> in_directory all id = false.
Proof.
  unfold build_index. rewrite index_fold_dom. tauto.
Qed.

Lemma build_index_Some all id s :
  build_index all !! id = Some s -> sup_ID s = id /\ in_directory all id = true.
Proof.
  intros H. split.
  - eapply index_fold_keys; [|exact H]. intros k v Hk.
    rewrite lookup_empty in Hk. discriminate.
  - destruct (in_directory all id) eqn:Hd; [reflexivity|].
    assert (build_index all !! id = None) as Hn.
    { unfold build_index. rewrite index_fold_dom. split; [apply lookup_empty | exact Hd]. }
    congruence.
Qed.

Lemma match_fold all : forall ms (seen : gmap string bool) results seenl,
  (forall x, default false (seen !! x) = existsb (String.eqb x) seenl) ->
  map result_id
      (snd (fold_left (match_step (build_index all)) ms (seen, results)))
  = map result_id results
    ++ dedup_first seenl (List.filter (in_directory all) (map SupplierID ms)).
Proof.
  induction ms as [|m ms IH]; intros seen results seenl Hseen; simpl.
  - rewrite app_nil_r. reflexivity.
  - pose proof (Hseen (SupplierID m)) as Hm.
    destruct (default false (seen !! SupplierID m)) eqn:Hs.
    + rewrite (IH seen results seenl Hseen).
      destruct (in_directory all (SupplierID m)); simpl; [|reflexivity].
      rewrite <- Hm. reflexivity.
    + destruct (build_index all !! SupplierID m) as [sup|] eqn:Hi.
      * apply build_index_Some in Hi. destruct Hi as [Hid Hd].
        rewrite Hd. simpl. rewrite <- Hm.
        rewrite (IH _ _ (SupplierID m :: seenl)).
        -- rewrite map_app. simpl. unfold result_id at 2. simpl.
           rewrite Hid, <- app_assoc. reflexivity.
        -- intros x. simpl.
           destruct (String.eqb_spec x (SupplierID m)) as [->|Hne].
           ++ rewrite lookup_insert_eq. reflexivity.
           ++ rewrite lookup_insert_ne by congruence. apply Hseen.
      * apply build_index_None in Hi. rewrite Hi.
        apply (IH seen results seenl Hseen).
Qed.

(** What [Match] returns on success is [match_results] of the listing of
    active suppliers and of some output of the capability. *)
Lemma Match_returns_match_results env fuel items city w w' results :
  Match env fuel items city w = Some (w', Ok results) ->
  exists ms,
    results
    = match_results (order_by_name (List.filter sup_Active (suppliers w))) ms.
Proof.
  unfold Match, Store_List. intros H.
  destruct (db_fault env (tick w)); [discriminate|].
  destruct (length _ =? 0)%nat.
  - inversion H; subst. exists []. reflexivity.
  - destruct (ChatWithTools _ _ _ _ _ _) as [[[w2 ids] [c|e]]|];
      try discriminate.
    inversion H; subst. exists ids. reflexivity.
Qed.


End Matching.


(** ** The decision step *)

Section Decision.

Variable env : Env.



(** C7. With no received unit [CompareQuotes] returns the fixed record whose
    recommendation is "Nenhuma cotação recebida." and leaves the world as it
    was: no request reaches the API, whatever the fuel. *)
Theorem CompareQuotes_no_quotes fuel req w :
  CompareQuotes env fuel req [] w
  = Some (w, Ok {| Recommendation := "Nenhuma cotação recebida.";
                   BestSupplier := ""; TotalPrice := 0%Q; Table := "" |}).
Proof. reflexivity. Qed.


End Decision.



(** ** The wait deadline *)




(** ** The response correlator *)

Section Correlator.

Variable env : Env.




(** [UpdateQuoteResponse] marks the rows carrying the identifier as
    "received" with the response text and price given, and no other row. *)
Lemma UpdateQuoteResponse_effect id response price w :
  db_fault env (tick w) = None ->
  snd (UpdateQuoteResponse env id response price w) = None
  /\ Forall2 (fun r r' =>
                if (r_id r =? id)%string
                then r_status r' = "received"
                     /\ r_response r' = Some response
                     /\ r_price r' = Some price
                else r' = r)
             (quotes w)
             (quotes (fst (UpdateQuoteResponse env id response price w))).
Proof.
  intros Hdb. unfold UpdateQuoteResponse. rewrite Hdb. simpl.
  split; [reflexivity|].
  induction (quotes w) as [|r rows IH]; simpl; constructor; [|exact IH].
  destruct (r_id r =? id)%string; simpl; auto.
Qed.

(** C5. When no supplier of the directory has the sender's address,
    [handleIncoming] does the lookup and nothing else: the quote units, the
    directory and the purchase memory are as before.  The function has no
    error result and is total. *)
Theorem handleIncoming_unknown_sender from msg w :
  resolve from w = None ->
  quotes (handleIncoming env from msg w) = quotes w
  /\ handleIncoming env from msg w = emit env (EvSupplierByPhone from) w.
Proof.
  unfold resolve. intros H. unfold handleIncoming, ByPhone.
  destruct (db_fault env (tick w)); [split; reflexivity|].
  rewrite H. split; reflexivity.
Qed.


End Correlator.

Lemma handleIncoming_unknown_sender_witness :
  quotes (handleIncoming env_calm "999" "oi" world_pending)
  = quotes world_pending.
Proof.
  apply (handleIncoming_unknown_sender env_calm "999" "oi" world_pending).
  reflexivity.
Defined.



(** A second message from a supplier whose only unit is "received" already
    changes no unit either: the first response text stays. *)
Lemma handleIncoming_second_reply :
  quotes (handleIncoming env_calm "111" "R$ 32 o saco" world_answered)
  = quotes world_answered.
Proof. reflexivity. Qed.

(** ** The wait loop *)

Section Waiting.

Variable env : Env.

Lemma handleIncoming_clock from msg w :
  clock w <= clock (handleIncoming env from msg w).
Proof.
  unfold handleIncoming, ByPhone.
  destruct (db_fault env (tick w)); simpl; [lia|].
  destruct (find _ _) as [sup|]; simpl; [|lia].
  unfold UpdateBySupplier. simpl.
  destruct (db_fault env (S (tick w))); simpl; [lia|].
  destruct (receive_latest _ _ _ _); simpl; lia.
Qed.

Lemma deliver_clock a msgs : forall w, clock w <= clock (deliver env a msgs w).
Proof.
  unfold deliver. destruct (listening a); [|intros; lia].
  induction msgs as [|m msgs IH]; intros w; simpl; [lia|].
  etransitivity; [|apply IH]. apply handleIncoming_clock.
Qed.

Lemma Sleep_clock a d w : clock w + d <= clock (Sleep env a d w).
Proof.
  unfold Sleep. etransitivity; [|apply deliver_clock]. simpl. lia.
Qed.

Lemma PendingByRequest_fst requestID w :
  fst (PendingByRequest env requestID w) = emit env (EvQueryQuotes requestID) w.
Proof.
  unfold PendingByRequest. destruct (db_fault env (tick w)); reflexivity.
Qed.

Lemma poll_next_clock a requestID w :
  clock w + 10 * Duration.Second <= clock (poll_next env a requestID w).
Proof.
  unfold poll_next. etransitivity; [|apply Sleep_clock].
  rewrite PendingByRequest_fst. simpl. lia.
Qed.

Lemma wait_fuel_step deadline w w2 fuel :
  clock w < deadline ->
  clock w + 10 * Duration.Second <= clock w2 ->
  (wait_fuel deadline w <= S fuel)%nat ->
  (wait_fuel deadline w2 <= fuel)%nat.
Proof.
  unfold wait_fuel.
  assert (Hstep : 0 < 10 * Duration.Second) by reflexivity.
  set (step := 10 * Duration.Second) in *. clearbody step.
  intros Hlt Hclk Hfuel.
  assert (H1 : (deadline - clock w2 + (step - 1)) / step
               <= (deadline - clock w + (step - 1)) / step - 1).
  { replace ((deadline - clock w + (step - 1)) / step - 1)
      with ((deadline - clock w + (step - 1) + (-1) * step) / step)
      by (rewrite Z.div_add by lia; lia).
    apply Z.div_le_mono; lia. }
  assert (H2 : 1 <= (deadline - clock w + (step - 1)) / step).
  { apply Z.div_le_lower_bound; lia. }
  lia.
Qed.

(** The loop ends when it has fuel for the polling intervals before the
    deadline, and it ends at the first iteration at whose start it does not
    keep waiting. *)
Lemma wait_loop_exit a requestID expected deadline :
  forall fuel w,
    (wait_fuel deadline w <= fuel)%nat ->
    exists n w' r,
      wait_loop env fuel a requestID expected deadline w = Some (w', r)
      /\ (forall i, (i < n)%nat ->
            keeps_waiting env requestID expected deadline
                          (polls env a requestID i w))
      /\ leaves env requestID expected deadline
                (polls env a requestID n w) w' r.
Proof.
  induction fuel as [|fuel IH]; intros w Hfuel.
  - unfold wait_fuel in Hfuel. lia.
  - simpl. destruct (clock w <? deadline) eqn:Hclk.
    + apply Z.ltb_lt in Hclk.
      destruct (PendingByRequest env requestID w) as [w1 [qs|e]] eqn:HP.
      * assert (Hdb : db_fault env (tick w) = None
                      /\ count_received qs = received_in_store requestID w
                      /\ w1 = fst (PendingByRequest env requestID w)).
        { rewrite HP. unfold PendingByRequest in HP.
          destruct (db_fault env (tick w)); inversion HP; subst. auto. }
        destruct Hdb as (Hdb & Hcnt & Hw1).
        destruct (count_received qs =? expected)%nat eqn:Hexp.
        -- apply Nat.eqb_eq in Hexp.
           exists 0%nat, w1, None. split; [reflexivity|].
           split; [intros i Hi; lia|].
           right. left. simpl. repeat split; auto. congruence.
        -- apply Nat.eqb_neq in Hexp.
           assert (Hnext : Sleep env a (10 * Duration.Second) w1
                           = poll_next env a requestID w).
           { unfold poll_next. rewrite Hw1. reflexivity. }
           rewrite Hnext.
           destruct (IH (poll_next env a requestID w))
             as (n & w' & r & Hrun & Hbefore & Hexit).
           { eapply wait_fuel_step; eauto. apply poll_next_clock. }
           exists (S n), w', r. split; [exact Hrun|].
           unfold polls in *. split.
           ++ intros i Hi. destruct i as [|i].
              ** simpl. repeat split; auto. congruence.
              ** rewrite Nat.iter_succ_r. apply Hbefore. lia.
           ++ rewrite Nat.iter_succ_r. exact Hexit.
      * assert (Hdb : db_fault env (tick w) = Some e
                      /\ w1 = fst (PendingByRequest env requestID w)).
        { rewrite HP. unfold PendingByRequest in HP.
          destruct (db_fault env (tick w)); inversion HP; subst. auto. }
        destruct Hdb as (Hdb & Hw1).
        exists 0%nat, w1, (Some e). split; [reflexivity|].
        split; [intros i Hi; lia|].
        right. right. simpl. repeat split; eauto.
    + apply Z.ltb_ge in Hclk.
      exists 0%nat, w, None. split; [reflexivity|].
      split; [intros i Hi; lia|].
      left. simpl. auto.
Qed.




End Waiting.


(** ** Dry run *)

Section DryRunFlow.

Variable env : Env.
Variable P : Event -> bool.

Lemma ParseRequest_quiet fuel description w w' r :
  (forall m, P (EvChat m ["parse_purchase_request"]) = true) ->
  P EvUuid = true ->
  ParseRequest env fuel description w = Some (w', r) ->
  evolves P w w' /\ quotes w' = quotes w.
Proof.
  intros HC HU H. unfold ParseRequest, ChatWithTools in H. simpl in H.
  destruct (chat_loop _ _ _ _ _ _ w) as [[[w1 items] [c|e]]|] eqn:Hc;
    try discriminate.
  - apply (chat_loop_quiet env P) in Hc; auto. destruct Hc as [E1 Q1].
    inversion H; subst. split.
    + eapply evolves_trans; [exact E1 | apply emit_evolves; exact HU].
    + simpl. exact Q1.
  - apply (chat_loop_quiet env P) in Hc; auto. inversion H; subst. exact Hc.
Qed.

Lemma Match_quiet fuel items city w w' r :
  (forall m, P (EvChat m ["match_suppliers"]) = true) ->
  P EvListSuppliers = true ->
  Match env fuel items city w = Some (w', r) ->
  evolves P w w' /\ quotes w' = quotes w.
Proof.
  intros HC HL H. unfold Match, Store_List in H.
  assert (E0 : evolves P w (emit env EvListSuppliers w))
    by (apply emit_evolves; exact HL).
  destruct (db_fault env (tick w)).
  - inversion H; subst. split; [exact E0 | reflexivity].
  - destruct (length _ =? 0)%nat.
    + inversion H; subst. split; [exact E0 | reflexivity].
    + unfold ChatWithTools in H. simpl in H.
      destruct (chat_loop _ _ _ _ _ _ _) as [[[w2 ids] [c|e]]|] eqn:Hc;
        try discriminate;
        apply (chat_loop_quiet env P) in Hc; auto; destruct Hc as [E1 Q1];
        inversion H; subst;
        (split; [eapply evolves_trans; [exact E0 | exact E1] | exact Q1]).
Qed.

End DryRunFlow.

Section DryRun.

Variable env : Env.

(** C10. With [DryRun] set, as it is in [DefaultConfig], once the request
    is parsed, suppliers are matched and [SendQuotes] has succeeded,
    [Agent_Quote] returns success in the very world the dispatch ended in.
    Between start and return every interaction is one of parsing, matching
    and dispatching: the quotes are never read back, the flow never sleeps,
    no ranking request is made and nothing is saved to purchase memory; the
    directory and the purchase memory are untouched, and the store has
    gained one pending unit per matched supplier and nothing else. *)
Theorem Quote_dry_run_stops_after_dispatch fuel a description urgent
    w w1 req0 w2 sups w3 :
  DryRun (cfg a) = true ->
  ParseRequest env fuel description w = Some (w1, Ok req0) ->
  Match env fuel (map pi_Name (req_Items req0)) (City (cfg a)) w1
    = Some (w2, Ok sups) ->
  sups <> [] ->
  SendQuotes env fuel (sender a)
             (with_urgency req0 urgent (quote_timeout a urgent))
             (map mr_Supplier sups) w2 = Some (w3, None) ->
  Agent_Quote env fuel a description urgent w = Some (w3, None)
  /\ evolves dispatch_event w w3
  /\ (exists new,
        quotes w3 = quotes w ++ new
        /\ Forall2 (unit_for req0) new (map mr_Supplier sups))
  /\ DryRun DefaultConfig = true.
Proof.
  intros Hdry Hparse Hmatch Hsups Hsend.
  split.
  - unfold Agent_Quote. rewrite Hparse. simpl.
    rewrite Hmatch.
    destruct sups as [|s sups]; [congruence|].
    change (length (s :: sups) =? 0)%nat with false. cbv iota.
    rewrite Hsend, Hdry. reflexivity.
  - apply (ParseRequest_quiet env dispatch_event) in Hparse; auto.
    apply (Match_quiet env dispatch_event) in Hmatch; auto.
    apply (SendQuotes_ok env dispatch_event) in Hsend; auto.
    destruct Hparse as [E1 Q1], Hmatch as [E2 Q2],
             Hsend as [E3 (new & Q3 & F3)].
    split; [|split; [|reflexivity]].
    + eapply evolves_trans; [exact E1|].
      eapply evolves_trans; [exact E2 | exact E3].
    + exists new. split; [congruence | exact F3].
Qed.

End DryRun.

Lemma Quote_dry_run_stops_after_dispatch_witness :
  exists w3,
    Agent_Quote env_calm 5 (New DefaultConfig) "10 sacos de cimento" false
                world0 = Some (w3, None)
    /\ purchase_memory w3 = purchase_memory world0
    /\ map r_status (quotes w3) = ["pending"; "pending"].
Proof.
  edestruct (Quote_dry_run_stops_after_dispatch env_calm 5
               (New DefaultConfig) "10 sacos de cimento" false world0)
    as (Hrun & Hev & _).
  - reflexivity.
  - vm_compute. reflexivity.
  - vm_compute. reflexivity.
  - discriminate.
  - vm_compute. reflexivity.
  - eexists. split; [exact Hrun|]. split.
    + destruct Hev as (_ & Hp & _). exact Hp.
    + vm_compute. reflexivity.
Defined.

(** ** The quote store *)

Section QuoteStoreFacts.

Variable env : Env.

Lemma has_id_In id rows :
  has_id id rows = true <-> In id (map r_id rows).
Proof.
  unfold has_id. rewrite existsb_exists, in_map_iff. split.
  - intros (r & Hr & He). apply String.eqb_eq in He. eauto.
  - intros (r & He & Hr). exists r. split; [exact Hr|].
    apply String.eqb_eq. exact He.
Qed.

Lemma CreateQuote_rows q w :
  quotes (fst (CreateQuote env q w)) = quotes w
  \/ exists id, has_id id (quotes w) = false
                /\ snd (CreateQuote env q w) = None
                /\ (q_ID q <> "" -> id = q_ID q)
                /\ quotes (fst (CreateQuote env q w))
                   = quotes w ++ [pending_row id q].
Proof.
  unfold CreateQuote.
  destruct (q_ID q =? "")%string eqn:Hid; simpl.
  - destruct (db_fault env (S (tick w))); simpl; [auto|].
    destruct (has_id (uuid env (tick w)) (quotes w)) eqn:Hh; simpl; [auto|].
    right. exists (uuid env (tick w)). repeat split; auto.
    intros Hne. apply String.eqb_eq in Hid. congruence.
  - destruct (db_fault env (tick w)); simpl; [auto|].
    destruct (has_id (q_ID q) (quotes w)) eqn:Hh; simpl; [auto|].
    right. exists (q_ID q). repeat split; auto.
Qed.

Lemma CreateQuote_failure_keeps_rows q w e :
  snd (CreateQuote env q w) = Some e ->
  quotes (fst (CreateQuote env q w)) = quotes w.
Proof.
  intros He. destruct (CreateQuote_rows q w) as [H|(id & _ & Hok & _)]; [exact H|].
  congruence.
Qed.

Lemma CreateQuote_ids q w :
  NoDup (quote_ids w) -> NoDup (quote_ids (fst (CreateQuote env q w))).
Proof.
  intros Hnd. unfold quote_ids in *.
  destruct (CreateQuote_rows q w) as [H|(id & Hfresh & _ & _ & H)]; rewrite H.
  - exact Hnd.
  - rewrite map_app. simpl. apply NoDup_app. split; [exact Hnd|]. split.
    + intros x Hx Hin. apply list_elem_of_singleton in Hin. subst x.
      apply list_elem_of_In in Hx. apply has_id_In in Hx. congruence.
    + apply NoDup_singleton.
Qed.

Lemma UpdateQuoteResponse_ids id response price w :
  quote_ids (fst (UpdateQuoteResponse env id response price w)) = quote_ids w.
Proof.
  unfold UpdateQuoteResponse, quote_ids.
  destruct (db_fault env (tick w)); simpl; [reflexivity|].
  rewrite map_map. apply map_ext. intros r.
  destruct (r_id r =? id)%string; reflexivity.
Qed.

Lemma SendQuotes_ids fuel snd_ req sups : forall w w' r,
  SendQuotes env fuel snd_ req sups w = Some (w', r) ->
  NoDup (quote_ids w) -> NoDup (quote_ids w').
Proof.
  induction sups as [|sup rest IH]; intros w w' r H Hnd; simpl in H.
  - inversion H; subst. exact Hnd.
  - destruct (composeMessage env fuel req sup w) as [[w1 [msg|e]]|] eqn:Hc;
      try discriminate.
    + apply (composeMessage_quiet env (fun _ => true)) in Hc; auto.
      destruct Hc as [_ Q1].
      destruct (Send env snd_ (sup_Phone sup) msg w1) as [w2 [e|]] eqn:Hs.
      * apply (Send_quiet env (fun _ => true)) in Hs; auto.
        destruct Hs as [_ Q2]. inversion H; subst.
        unfold quote_ids in *. rewrite Q2, Q1. exact Hnd.
      * apply (Send_quiet env (fun _ => true)) in Hs; auto.
        destruct Hs as [_ Q2].
        set (q := new_quote _ _ _ _) in H.
        set (w3 := emit env EvUuid w2) in H.
        assert (Hnd3 : NoDup (quote_ids w3)).
        { unfold quote_ids in *. simpl. rewrite Q2, Q1. exact Hnd. }
        pose proof (CreateQuote_ids q w3 Hnd3) as Hnd4.
        destruct (CreateQuote env q w3) as [w4 [e|]]; simpl in Hnd4.
        -- inversion H; subst. exact Hnd4.
        -- eapply IH; eauto.
    + apply (composeMessage_quiet env (fun _ => true)) in Hc; auto.
      destruct Hc as [_ Q1]. inversion H; subst.
      unfold quote_ids in *. rewrite Q1. exact Hnd.
Qed.

(** Identifiers of quote units stay pairwise distinct: [CreateQuote] adds a
    row only under an identifier the table does not hold yet and leaves the
    table as it was when it fails, [UpdateQuoteResponse] changes no
    identifier, and so [SendQuotes], whatever its outcome, keeps them
    distinct. *)
Theorem quote_ids_stay_unique fuel snd_ req sups w w' r :
  NoDup (quote_ids w) ->
  SendQuotes env fuel snd_ req sups w = Some (w', r) ->
  NoDup (quote_ids w')
  /\ (forall q, NoDup (quote_ids (fst (CreateQuote env q w'))))
  /\ (forall q e, snd (CreateQuote env q w') = Some e ->
                  quotes (fst (CreateQuote env q w')) = quotes w')
  /\ (forall id response price,
        quote_ids (fst (UpdateQuoteResponse env id response price w'))
        = quote_ids w').
Proof.
  intros Hnd H. pose proof (SendQuotes_ids _ _ _ _ _ _ _ H Hnd) as Hnd'.
  split; [exact Hnd'|]. split; [|split].
  - intros q. apply CreateQuote_ids. exact Hnd'.
  - intros q e. apply CreateQuote_failure_keeps_rows.
  - intros. apply UpdateQuoteResponse_ids.
Qed.


(** [UpdateQuoteResponse] for an identifier the table does not hold changes
    no row and, the statement itself succeeding, reports no error. *)
Theorem UpdateQuoteResponse_unknown_id id response price w :
  has_id id (quotes w) = false ->
  quotes (fst (UpdateQuoteResponse env id response price w)) = quotes w
  /\ (db_fault env (tick w) = None ->
      snd (UpdateQuoteResponse env id response price w) = None).
Proof.
  intros Hno. unfold UpdateQuoteResponse.
  destruct (db_fault env (tick w)); simpl; [split; [reflexivity | discriminate]|].
  split; [|reflexivity].
  unfold has_id in Hno. induction (quotes w) as [|r rows IH]; simpl in *; [reflexivity|].
  apply orb_false_iff in Hno. destruct Hno as [Hr Hrows].
  rewrite Hr, (IH Hrows). reflexivity.
Qed.

Lemma map_update_other id f (rows : list QuoteRow) :
  ~ In id (map r_id rows) ->
  map (fun r => if (r_id r =? id)%string then f r else r) rows = rows.
Proof.
  induction rows as [|r rows IH]; simpl; [reflexivity|].
  intros Hn. destruct (String.eqb_spec (r_id r) id) as [He|_].
  - exfalso. apply Hn. left. exact He.
  - rewrite IH; [reflexivity|]. intros Hin. apply Hn. right. exact Hin.
Qed.

(** With distinct identifiers in the table, [UpdateQuoteResponse] for the
    identifier of a unit changes that unit and no other: it becomes
    "received" with the response text and price given, and reads back so
    through [PendingByRequest]. *)
Theorem UpdateQuoteResponse_read_back pre r post response price w w' :
  NoDup (quote_ids w) ->
  quotes w = pre ++ r :: post ->
  UpdateQuoteResponse env (r_id r) response price w = (w', None) ->
  db_fault env (tick w') = None ->
  quotes w' = pre ++ respond_row response price (clock w) r :: post
  /\ exists qs,
       snd (PendingByRequest env (r_request_id r) w') = Ok qs
       /\ In {| q_ID := r_id r;
                q_RequestID := r_request_id r;
                q_SupplierID := r_supplier_id r;
                q_Items := r_items r;
                q_Response := response;
                q_Price := price;
                q_Status := "received";
                q_CreatedAt := r_created_at r;
                q_RespondedAt := None |} qs.
Proof.
  intros Hnd Hsplit Hupd Hdb.
  assert (Hrows : quotes w'
                  = pre ++ respond_row response price (clock w) r :: post).
  { unfold UpdateQuoteResponse in Hupd.
    destruct (db_fault env (tick w)); [discriminate|].
    inversion Hupd; subst w'. simpl.
    unfold quote_ids in Hnd. rewrite Hsplit in Hnd |- *.
    rewrite map_app in Hnd. simpl in Hnd.
    apply NoDup_app in Hnd. destruct Hnd as (_ & Hpre & Hpost).
    apply NoDup_cons in Hpost. destruct Hpost as [Hpost _].
    rewrite map_app. simpl. rewrite String.eqb_refl.
    rewrite !map_update_other; [reflexivity| |].
    - intros Hin. apply Hpost. apply list_elem_of_In. exact Hin.
    - intros Hin. apply (Hpre (r_id r)).
      + apply list_elem_of_In. exact Hin.
      + apply list_elem_of_here. }
  split; [exact Hrows|].
  unfold PendingByRequest. rewrite Hdb. simpl. eexists. split; [reflexivity|].
  apply in_map_iff. exists (respond_row response price (clock w) r).
  split; [reflexivity|].
  unfold rows_of_request. apply filter_In. split.
  - rewrite Hrows. apply in_or_app. right. left. reflexivity.
  - simpl. apply String.eqb_refl.
Qed.

End QuoteStoreFacts.

(** ** Phone numbers *)






(** ** The chat client *)

Section ChatFacts.

Variable env : Env.

(** Whatever the executor does, an error of [ChatWithTools] is a failure of
    the API call or a response without choices: a failing executor is
    reported to the model and never to the caller. *)
Theorem ChatWithTools_errors {St : Type}
    (ex : string -> string -> St -> St * Res string) fuel req s w w' s' e :
  ChatWithTools env ex fuel req s w = Some (w', s', Err e) ->
  e = "empty response" \/ exists e0, e = "openrouter api: " +:+ e0.
Proof.
  unfold ChatWithTools. generalize (buildParams req) as msgs.
  revert s w. induction fuel as [|fuel IH]; intros s w msgs H; simpl in H.
  - discriminate.
  - destruct (completions env (tick w)) as [e0|[|c cs]].
    + inversion H; subst. right. eauto.
    + inversion H; subst. left. reflexivity.
    + destruct ((FinishReason c =? "stop")%string || (length (ToolCalls c) =? 0)%nat).
      * discriminate.
      * destruct (fold_left _ _ _) as [s1 msgs1]. eapply IH; eauto.
Qed.

Lemma run_tools_state {St : Type}
    (ex : string -> string -> St -> St * Res string) tcs : forall s msgs,
  fst (fold_left (run_tool ex) tcs (s, msgs))
  = fold_left (fun s0 tc => fst (ex (tc_Name tc) (tc_Arguments tc) s0)) tcs s.
Proof.
  induction tcs as [|tc tcs IH]; intros s msgs; simpl; [reflexivity|].
  destruct (ex (tc_Name tc) (tc_Arguments tc) s) as [s1 r]. simpl. apply IH.
Qed.

Lemma round_calls_continues t c cs :
  completions env t = ApiOk (c :: cs) -> round_calls env t = ToolCalls c.
Proof. unfold round_calls. intros ->. reflexivity. Qed.

(** After [k] rounds of tool calls and a final answer the captured variable
    is the executor folded over all tool calls in order, and [k+1] requests
    have been made. *)
Lemma chat_loop_state {St : Type}
    (ex : string -> string -> St -> St * Res string) tools :
  forall k fuel msgs s w,
    (k < fuel)%nat ->
    (forall i, (i < k)%nat -> continues (completions env (tick w + i)) = true) ->
    stops (completions env (tick w + k)) = true ->
    exists w' content,
      chat_loop env ex fuel tools msgs s w
      = Some (w',
              fold_left (fun s0 tc => fst (ex (tc_Name tc) (tc_Arguments tc) s0))
                        (calls_from env (tick w) k) s,
              Ok content)
      /\ tick w' = (tick w + S k)%nat.
Proof.
  induction k as [|k IH]; intros fuel msgs s w Hfuel Hcont Hstop.
  - destruct fuel as [|fuel]; [lia|]. simpl.
    rewrite Nat.add_0_r in Hstop.
    destruct (completions env (tick w)) as [e|[|c cs]]; try discriminate.
    simpl in Hstop. rewrite Hstop. eexists _, _. split; [reflexivity|].
    simpl. lia.
  - destruct fuel as [|fuel]; [lia|]. simpl.
    pose proof (Hcont 0%nat ltac:(lia)) as H0. rewrite Nat.add_0_r in H0.
    destruct (completions env (tick w)) as [e|[|c cs]] eqn:Hapi;
      try discriminate.
    simpl in H0. apply negb_true_iff in H0. rewrite H0.
    pose proof (run_tools_state ex (ToolCalls c) s
                  (msgs ++ [AssistantMessage c])) as Hst.
    destruct (fold_left (run_tool ex) _ _) as [s1 msgs1]. simpl in Hst.
    destruct (IH fuel msgs1 s1 (emit env (EvChat msgs tools) w))
      as (w' & content & Hrun & Htick).
    + lia.
    + intros i Hi. simpl. replace (S (tick w + i)) with (tick w + S i)%nat by lia.
      apply Hcont. lia.
    + simpl. replace (S (tick w + k)) with (tick w + S k)%nat by lia.
      exact Hstop.
    + exists w', content. split.
      * rewrite Hrun. simpl. rewrite (round_calls_continues _ _ _ Hapi).
        rewrite fold_left_app, Hst. reflexivity.
      * rewrite Htick. simpl. lia.
Qed.

Lemma fold_last_parsed (pre post : list ToolCall) tc r : forall s,
  unmarshal_comparison env (tc_Arguments tc) = Ok r ->
  forallb (fun t => negb (parses env t)) post = true ->
  fold_left (fun s0 t => fst (compare_executor env (tc_Name t) (tc_Arguments t) s0))
            (pre ++ tc :: post) s
  = r.
Proof.
  intros s Hr Hpost. rewrite fold_left_app. simpl.
  unfold compare_executor at 2. rewrite Hr. simpl.
  clear Hr. induction post as [|t post IH]; simpl in *; [reflexivity|].
  apply andb_true_iff in Hpost. destruct Hpost as [Ht Hpost].
  unfold compare_executor at 2. unfold parses in Ht.
  destruct (unmarshal_comparison env (tc_Arguments t)); [discriminate|].
  simpl. apply IH. exact Hpost.
Qed.

(** When the model asks for tools in [k] rounds and then answers,
    [CompareQuotes] returns the record decoded from the last tool input that
    parses, over all rounds and whatever the name of the tool called, after
    [k+1] requests to the API. *)
Theorem CompareQuotes_last_parsed fuel req qs w k pre tc post r :
  qs <> [] ->
  (k < fuel)%nat ->
  (forall i, (i < k)%nat -> continues (completions env (tick w + i)) = true) ->
  stops (completions env (tick w + k)) = true ->
  calls_from env (tick w) k = pre ++ tc :: post ->
  unmarshal_comparison env (tc_Arguments tc) = Ok r ->
  forallb (fun t => negb (parses env t)) post = true ->
  exists w',
    CompareQuotes env fuel req qs w = Some (w', Ok r)
    /\ tick w' = (tick w + S k)%nat.
Proof.
  intros Hqs Hfuel Hcont Hstop Hcalls Hr Hpost.
  unfold CompareQuotes.
  destruct qs as [|q qs]; [congruence|].
  change (length (q :: qs) =? 0)%nat with false. cbv iota.
  unfold ChatWithTools.
  set (creq := {| System := _; User := _; Tools := _ |}).
  destruct (chat_loop_state (compare_executor env) (Tools creq) k fuel
              (buildParams creq) zero_comparison w Hfuel Hcont Hstop)
    as (w' & content & Hrun & Htick).
  rewrite Hrun, Hcalls. rewrite (fold_last_parsed pre post tc r _ Hr Hpost).
  exists w'. split; [reflexivity | exact Htick].
Qed.

Lemma fallback_message_nonempty req sup : fallback_message env req sup <> "".
Proof.
  unfold fallback_message. simpl.
  destruct (map _ (req_Items req) ++ _) eqn:Hl.
  - destruct (map _ (req_Items req)); discriminate Hl.
  - simpl. discriminate.
Qed.

Lemma composeMessage_ok_text fuel req sup w w' msg :
  composeMessage env fuel req sup w = Some (w', Ok msg) ->
  msg <> "".
Proof.
  unfold composeMessage. intros H.
  destruct (ChatWithTools _ _ _ _ _ _) as [[[w1 m] [c|e]]|]; try discriminate.
  destruct (m =? "")%string eqn:Hm; inversion H; subst.
  - apply fallback_message_nonempty.
  - apply String.eqb_neq in Hm. exact Hm.
Qed.

(** A message composed without error is never empty: when the model gives
    no text, the fallback text takes its place. *)
Theorem composeMessage_nonempty fuel req sup w w' msg :
  composeMessage env fuel req sup w = Some (w', Ok msg) ->
  msg <> "".
Proof. apply composeMessage_ok_text. Qed.

End ChatFacts.

(** ** More on the dispatcher *)

Section DispatchFacts.

Variable env : Env.

Lemma chat_loop_mock_sent {St : Type}
    (ex : string -> string -> St -> St * Res string) tools fuel :
  forall msgs s w w' s' r,
    chat_loop env ex fuel tools msgs s w = Some (w', s', r) ->
    mock_sent w' = mock_sent w.
Proof.
  induction fuel as [|fuel IH]; intros msgs s w w' s' r H; simpl in H.
  - discriminate.
  - destruct (completions env (tick w)) as [e|[|c cs]];
      try (inversion H; subst; reflexivity).
    destruct ((FinishReason c =? "stop")%string || (length (ToolCalls c) =? 0)%nat).
    + inversion H; subst. reflexivity.
    + destruct (fold_left _ _ _) as [s1 msgs1].
      apply IH in H. rewrite H. reflexivity.
Qed.

Lemma composeMessage_mock_sent fuel req sup w w' r :
  composeMessage env fuel req sup w = Some (w', r) ->
  mock_sent w' = mock_sent w.
Proof.
  unfold composeMessage, ChatWithTools. intros H.
  destruct (chat_loop _ _ _ _ _ _ w) as [[[w1 m] [c|e]]|] eqn:Hc;
    try discriminate; apply chat_loop_mock_sent in Hc.
  - destruct (m =? "")%string; inversion H; subst; exact Hc.
  - inversion H; subst. exact Hc.
Qed.

Lemma CreateQuote_mock_sent q w :
  mock_sent (fst (CreateQuote env q w)) = mock_sent w.
Proof.
  unfold CreateQuote.
  destruct (q_ID q =? "")%string; simpl;
    match goal with
    | |- context [db_fault env ?t] => destruct (db_fault env t)
    end; simpl; try reflexivity;
    match goal with
    | |- context [has_id ?i ?rows] => destruct (has_id i rows)
    end; reflexivity.
Qed.

Lemma CreateQuote_log q w :
  exists evs, log (fst (CreateQuote env q w)) = log w ++ evs.
Proof.
  unfold CreateQuote.
  destruct (q_ID q =? "")%string; simpl;
    match goal with
    | |- context [db_fault env ?t] => destruct (db_fault env t)
    end; simpl; try (eexists; rewrite <- ?app_assoc; reflexivity);
    match goal with
    | |- context [has_id ?i ?rows] => destruct (has_id i rows)
    end; simpl; eexists; rewrite <- ?app_assoc; reflexivity.
Qed.

Lemma Send_log s phone msg w :
  log (fst (Send env s phone msg w)) = log w ++ [EvSend phone msg].
Proof.
  unfold Send. destruct s; [reflexivity|].
  destruct (send_fault env (tick w)); reflexivity.
Qed.

(** With the simulated channel a successful [SendQuotes] records one sent
    message per supplier, addressed to the suppliers' phones in order, none
    of them empty. *)
Theorem SendQuotes_mock_records fuel req sups : forall w w',
  SendQuotes env fuel MockSender req sups w = Some (w', None) ->
  exists sent,
    mock_sent w' = mock_sent w ++ sent
    /\ map fst sent = map sup_Phone sups
    /\ Forall (fun m => snd m <> "") sent.
Proof.
  induction sups as [|sup rest IH]; intros w w' H; simpl in H.
  - inversion H; subst. exists []. rewrite app_nil_r. auto.
  - destruct (composeMessage env fuel req sup w) as [[w1 [msg|e]]|] eqn:Hc;
      try discriminate.
    pose proof (composeMessage_ok_text env _ _ _ _ _ _ Hc) as Hmsg.
    apply composeMessage_mock_sent in Hc.
    simpl in H.
    set (w2 := set_mock_sent _ _) in H.
    set (q := new_quote _ _ _ _) in H.
    pose proof (CreateQuote_mock_sent q (emit env EvUuid w2)) as Hm4.
    destruct (CreateQuote env q (emit env EvUuid w2)) as [w4 [e|]];
      [discriminate|].
    simpl in Hm4. apply IH in H. destruct H as (sent & Hs & Hp & Hn).
    exists ((sup_Phone sup, msg) :: sent). split; [|split].
    + rewrite Hs, Hm4. subst w2. simpl. rewrite Hc, <- app_assoc. reflexivity.
    + simpl. rewrite Hp. reflexivity.
    + constructor; [exact Hmsg | exact Hn].
Qed.


(** When the message for the k-th supplier has been composed and sent but
    recording its unit fails, [SendQuotes] stops with "save quote": the
    units of the suppliers before the k-th persist, the k-th supplier has
    been sent its message and has no unit, and later suppliers are not
    served. *)
Theorem SendQuotes_save_failure fuel snd_ req pre sup post w w1 w1' msg w2 w4 e :
  SendQuotes env fuel snd_ req pre w = Some (w1, None) ->
  composeMessage env fuel req sup w1 = Some (w1', Ok msg) ->
  Send env snd_ (sup_Phone sup) msg w1' = (w2, None) ->
  CreateQuote env
    (new_quote (uuid env (tick w2)) req sup (clock (emit env EvUuid w2)))
    (emit env EvUuid w2) = (w4, Some e) ->
  SendQuotes env fuel snd_ req (pre ++ sup :: post) w
  = Some (w4, Some ("save quote: " +:+ e))
  /\ (exists new, quotes w4 = quotes w ++ new
                  /\ Forall2 (unit_for req) new pre)
  /\ In (EvSend (sup_Phone sup) msg) (log w4).
Proof.
  intros Hpre Hc Hs Hq. split; [|split].
  - rewrite SendQuotes_app, Hpre. simpl. rewrite Hc, Hs. simpl.
    simpl in Hq. rewrite Hq. reflexivity.
  - apply (SendQuotes_ok env (fun _ => true)) in Hpre; auto.
    destruct Hpre as [_ (new & Q1 & F1)].
    apply (composeMessage_quiet env (fun _ => true)) in Hc; auto.
    apply (Send_quiet env (fun _ => true)) in Hs; auto.
    destruct Hc as [_ Q2], Hs as [_ Q3].
    assert (Q4 : quotes w4 = quotes (emit env EvUuid w2)).
    { pose proof (CreateQuote_failure_keeps_rows env
                    (new_quote (uuid env (tick w2)) req sup
                               (clock (emit env EvUuid w2)))
                    (emit env EvUuid w2) e) as Hk.
      rewrite Hq in Hk. apply Hk. reflexivity. }
    simpl in Q4.
    exists new. split; [congruence | exact F1].
  - destruct (CreateQuote_log
                (new_quote (uuid env (tick w2)) req sup
                           (clock (emit env EvUuid w2)))
                (emit env EvUuid w2)) as [evs Hl].
    rewrite Hq in Hl. simpl in Hl. rewrite Hl.
    pose proof (Send_log snd_ (sup_Phone sup) msg w1') as Hsl.
    rewrite Hs in Hsl. simpl in Hsl. rewrite Hsl.
    apply in_or_app. left. apply in_or_app. left. apply in_or_app. right.
    left. reflexivity.
Qed.

End DispatchFacts.

(** ** More on the flow of [Agent_Quote] *)

Section QuoteFlowFacts.

Variable env : Env.

Lemma Match_no_active_supplier fuel items city w :
  List.filter sup_Active (suppliers w) = [] ->
  db_fault env (tick w) = None ->
  Match env fuel items city w = Some (emit env EvListSuppliers w, Ok []).
Proof.
  intros Hnone Hdb. unfold Match, Store_List. rewrite Hdb, Hnone. reflexivity.
Qed.

(** With no active supplier in the directory, [Agent_Quote] ends with
    success right after the listing: the matching capability is not asked,
    nothing is sent and no unit is created. *)
Theorem Quote_empty_directory fuel a description urgent w w1 req0 :
  List.filter sup_Active (suppliers w) = [] ->
  ParseRequest env fuel description w = Some (w1, Ok req0) ->
  db_fault env (tick w1) = None ->
  Agent_Quote env fuel a description urgent w
  = Some (emit env EvListSuppliers w1, None)
  /\ quotes (emit env EvListSuppliers w1) = quotes w
  /\ log (emit env EvListSuppliers w1) = log w1 ++ [EvListSuppliers].
Proof.
  intros Hnone Hparse Hdb.
  pose proof Hparse as Hq.
  apply (ParseRequest_quiet env (fun _ => true)) in Hq; auto.
  destruct Hq as [(Hs & _) Hq].
  split; [|split; [exact Hq | reflexivity]].
  unfold Agent_Quote. rewrite Hparse. simpl.
  rewrite Match_no_active_supplier; [reflexivity | congruence | exact Hdb].
Qed.

(** When matching yields no supplier, [Agent_Quote] ends with success right
    there: nothing is sent and no unit is created. *)
Theorem Quote_no_supplier fuel a description urgent w w1 req0 w2 :
  ParseRequest env fuel description w = Some (w1, Ok req0) ->
  Match env fuel (map pi_Name (req_Items req0)) (City (cfg a)) w1
    = Some (w2, Ok []) ->
  Agent_Quote env fuel a description urgent w = Some (w2, None)
  /\ quotes w2 = quotes w
  /\ evolves predispatch_event w w2.
Proof.
  intros Hparse Hmatch. split.
  - unfold Agent_Quote. rewrite Hparse. simpl. rewrite Hmatch. reflexivity.
  - apply (ParseRequest_quiet env predispatch_event) in Hparse; auto.
    apply (Match_quiet env predispatch_event) in Hmatch; auto.
    destruct Hparse as [E1 Q1], Hmatch as [E2 Q2]. split; [congruence|].
    eapply evolves_trans; eauto.
Qed.

(** When parsing the request or matching suppliers fails, [Agent_Quote]
    returns the error, wrapped, in the world of the failure: nothing is
    sent and no unit is created. *)
Theorem Quote_fails_before_dispatch fuel a description urgent w w' e0 :
  (ParseRequest env fuel description w = Some (w', Err e0)
   \/ exists w1 req0,
        ParseRequest env fuel description w = Some (w1, Ok req0)
        /\ Match env fuel (map pi_Name (req_Items req0)) (City (cfg a)) w1
           = Some (w', Err e0)) ->
  (Agent_Quote env fuel a description urgent w
     = Some (w', Some ("analisar pedido: " +:+ e0))
   \/ Agent_Quote env fuel a description urgent w
      = Some (w', Some ("buscar fornecedores: " +:+ e0)))
  /\ quotes w' = quotes w
  /\ evolves predispatch_event w w'.
Proof.
  intros [Hparse | (w1 & req0 & Hparse & Hmatch)].
  - split.
    + left. unfold Agent_Quote. rewrite Hparse. reflexivity.
    + apply (ParseRequest_quiet env predispatch_event) in Hparse; auto.
      destruct Hparse as [E1 Q1]. auto.
  - split.
    + right. unfold Agent_Quote. rewrite Hparse. simpl. rewrite Hmatch.
      reflexivity.
    + apply (ParseRequest_quiet env predispatch_event) in Hparse; auto.
      apply (Match_quiet env predispatch_event) in Hmatch; auto.
      destruct Hparse as [E1 Q1], Hmatch as [E2 Q2]. split; [congruence|].
      eapply evolves_trans; eauto.
Qed.


Lemma memory_Save_rows rec w :
  purchase_memory (fst (memory_Save env rec w)) = purchase_memory w
  \/ exists id t,
       purchase_memory (fst (memory_Save env rec w))
       = purchase_memory w
         ++ [ {| pr_ID := id;
                 pr_Description := pr_Description rec;
                 pr_Items := pr_Items rec;
                 pr_ChosenSupplier := pr_ChosenSupplier rec;
                 pr_TotalPrice := pr_TotalPrice rec;
                 pr_CreatedAt := Some t |} ].
Proof.
  unfold memory_Save.
  destruct (pr_CreatedAt rec); destruct (pr_ID rec =? "")%string; simpl;
    match goal with
    | |- context [db_fault env ?t] => destruct (db_fault env t)
    end; simpl; auto;
    match goal with
    | |- context [has_purchase ?i ?rows] => destruct (has_purchase i rows)
    end; simpl; auto; right; eexists _, _; reflexivity.
Qed.

(** After a successful ranking the flow ends with success whether or not
    the purchase record can be saved; the purchase memory gains at most one
    record, which names the description, the item names, the best supplier
    and the total price of the comparison. *)
Theorem wait_and_decide_save_ignored fuel a description req itemNames
    expected timeout w w1 w2 received w3 comparison :
  wait_loop env fuel a (req_ID req) expected (clock w + timeout) w
    = Some (w1, None) ->
  final_snapshot env (req_ID req) w1 = (w2, received) ->
  received <> [] ->
  CompareQuotes env fuel req received w2 = Some (w3, Ok comparison) ->
  exists w4,
    wait_and_decide env fuel a description req itemNames expected timeout w
    = Some (w4, None)
    /\ (purchase_memory w4 = purchase_memory w3
        \/ exists id t,
             purchase_memory w4
             = purchase_memory w3
               ++ [ {| pr_ID := id;
                       pr_Description := description;
                       pr_Items := itemNames;
                       pr_ChosenSupplier := BestSupplier comparison;
                       pr_TotalPrice := TotalPrice comparison;
                       pr_CreatedAt := Some t |} ]).
Proof.
  intros Hrun Hsnap Hrec Hcmp.
  unfold wait_and_decide. rewrite Hrun, Hsnap.
  destruct received as [|q received]; [congruence|].
  change (length (q :: received) =? 0)%nat with false. cbv iota.
  rewrite Hcmp.
  set (rec := {| pr_ID := ""; pr_Description := description |}).
  pose proof (memory_Save_rows rec w3) as Hrows.
  destruct (memory_Save env rec w3) as [w4 r]. simpl in Hrows.
  exists w4. split; [reflexivity | exact Hrows].
Qed.

Lemma polls_clock a requestID n w :
  clock w + Z.of_nat n * (10 * Duration.Second)
  <= clock (polls env a requestID n w).
Proof.
  unfold polls. induction n as [|n IH].
  - simpl. lia.
  - rewrite Nat2Z.inj_succ. simpl Nat.iter.
    pose proof (poll_next_clock env a requestID
                  (Nat.iter n (poll_next env a requestID) w)) as Hstep.
    lia.
Qed.

(** The wait loop, given fuel for the polling intervals before the
    deadline, ends after [n] sleeps of ten seconds or more each: it has
    lasted at least [n] intervals, and unless [n] is zero, [n-1] full
    intervals fit between its start and the deadline. *)
Theorem wait_loop_iterations_bounded a requestID expected deadline fuel w :
  (wait_fuel deadline w <= fuel)%nat ->
  exists n w' r,
    wait_loop env fuel a requestID expected deadline w = Some (w', r)
    /\ leaves env requestID expected deadline (polls env a requestID n w) w' r
    /\ clock w + Z.of_nat n * (10 * Duration.Second) <= clock w'
    /\ (n = 0%nat
        \/ (Z.of_nat n - 1) * (10 * Duration.Second) < deadline - clock w).
Proof.
  intros Hfuel.
  destruct (wait_loop_exit env a requestID expected deadline fuel w Hfuel)
    as (n & w' & r & Hrun & Hkeep & Hexit).
  exists n, w', r. split; [exact Hrun|]. split; [exact Hexit|].
  pose proof (polls_clock a requestID n w) as Hn.
  split.
  - destruct Hexit as [(_ & -> & _) | [(_ & _ & _ & -> & _) | (_ & -> & _)]];
      rewrite ?PendingByRequest_fst; simpl; lia.
  - destruct n as [|n]; [left; reflexivity | right].
    destruct (Hkeep n ltac:(lia)) as (Hlt & _).
    pose proof (polls_clock a requestID n w) as Hc.
    rewrite Nat2Z.inj_succ. lia.
Qed.

End QuoteFlowFacts.

(** ** More on the matcher and the directory *)

Section DirectoryFacts.

Variable env : Env.

Lemma insert_by_name_In s x l :
  In s (insert_by_name x l) <-> s = x \/ In s l.
Proof.
  induction l as [|y l IH]; simpl.
  - intuition.
  - destruct (sup_Name x <=? sup_Name y)%string; simpl; [intuition|].
    rewrite IH. intuition.
Qed.

Lemma order_by_name_In s l : In s (order_by_name l) <-> In s l.
Proof.
  unfold order_by_name. induction l as [|y l IH]; simpl; [tauto|].
  rewrite insert_by_name_In, IH. intuition.
Qed.

Lemma index_fold_In (all : list Supplier) :
  forall (m : gmap string Supplier) id s,
    fold_left (fun idx s => <[sup_ID s := s]> idx) all m !! id = Some s ->
    m !! id = Some s \/ In s all.
Proof.
  induction all as [|x all IH]; intros m id s H; simpl in H; [auto|].
  apply IH in H. destruct H as [H|H]; [|right; right; exact H].
  destruct (decide (sup_ID x = id)) as [Heq|Hne].
  - subst id. rewrite lookup_insert_eq in H. inversion H; subst.
    right. left. reflexivity.
  - rewrite lookup_insert_ne in H by exact Hne. auto.
Qed.

Lemma build_index_In all id s : build_index all !! id = Some s -> In s all.
Proof.
  intros H. apply index_fold_In in H. destruct H as [H|H]; [|exact H].
  rewrite lookup_empty in H. discriminate.
Qed.

Lemma match_fold_members all (Q : MatchResult -> Prop) :
  (forall s reason, In s all ->
     Q {| mr_Supplier := s; mr_Categories := []; mr_Reason := reason |}) ->
  forall ms seen results,
    Forall Q results ->
    Forall Q (snd (fold_left (match_step (build_index all)) ms (seen, results))).
Proof.
  intros HQ. induction ms as [|m ms IH]; intros seen results Hres; simpl.
  - exact Hres.
  - destruct (default false (seen !! SupplierID m)); [apply IH; exact Hres|].
    destruct (build_index all !! SupplierID m) as [sup|] eqn:Hi;
      [|apply IH; exact Hres].
    apply IH. apply Forall_app. split; [exact Hres|].
    constructor; [|constructor]. apply HQ. eapply build_index_In; eauto.
Qed.

Lemma dedup_first_fresh ids : forall seen,
  NoDup (dedup_first seen ids)
  /\ forall x, In x (dedup_first seen ids) -> existsb (String.eqb x) seen = false.
Proof.
  induction ids as [|y ids IH]; intros seen; simpl.
  - split; [apply NoDup_nil_2 | tauto].
  - destruct (existsb (String.eqb y) seen) eqn:Hy.
    + apply IH.
    + destruct (IH (y :: seen)) as [Hnd Hfresh]. split.
      * apply NoDup_cons_2; [|exact Hnd].
        intros Hin. apply list_elem_of_In in Hin. apply Hfresh in Hin.
        simpl in Hin. rewrite String.eqb_refl in Hin. discriminate.
      * intros x [Hx|Hx].
        -- subst x. exact Hy.
        -- apply Hfresh in Hx. simpl in Hx.
           apply orb_false_iff in Hx. tauto.
Qed.

(** [Match] only ever returns suppliers of the directory that are active,
    each at most once, and leaves the categories of a match empty. *)
Theorem Match_only_active_suppliers fuel items city w w' results :
  Match env fuel items city w = Some (w', Ok results) ->
  Forall (fun r => In (mr_Supplier r) (suppliers w)
                   /\ sup_Active (mr_Supplier r) = true
                   /\ mr_Categories r = []) results
  /\ NoDup (map result_id results).
Proof.
  intros H.
  destruct (Match_returns_match_results _ _ _ _ _ _ _ H) as [ms ->].
  set (all := order_by_name (List.filter sup_Active (suppliers w))).
  split.
  - unfold match_results. apply match_fold_members; [|constructor].
    intros s reason Hs. simpl. subst all.
    apply order_by_name_In, filter_In in Hs. tauto.
  - unfold match_results.
    rewrite (match_fold all ms ∅ [] []).
    + simpl. apply dedup_first_fresh.
    + intros x. rewrite lookup_empty. reflexivity.
Qed.

Lemma catSet_fold_lookup cats c : forall (m : gmap string bool),
  default false (fold_left (fun m c => <[c := true]> m) cats m !! c)
  = existsb (String.eqb c) cats || default false (m !! c).
Proof.
  induction cats as [|x cats IH]; intros m; simpl; [reflexivity|].
  rewrite IH. destruct (String.eqb_spec c x) as [->|Hne]; simpl.
  - rewrite lookup_insert_eq. simpl. apply orb_true_r.
  - rewrite lookup_insert_ne by congruence. reflexivity.
Qed.

Lemma in_catSet_spec cats l :
  in_catSet (catSet_of cats) l
  = existsb (fun c => existsb (String.eqb c) cats) l.
Proof.
  induction l as [|c l IH]; simpl; [reflexivity|].
  unfold catSet_of at 1. rewrite catSet_fold_lookup, lookup_empty. simpl.
  rewrite orb_false_r.
  destruct (existsb (String.eqb c) cats); [reflexivity | exact IH].
Qed.

Lemma append_if_filter (p : Supplier -> bool) all : forall acc,
  fold_left (fun result sup => if p sup then result ++ [sup] else result)
            all acc
  = acc ++ List.filter p all.
Proof.
  induction all as [|s all IH]; intros acc; simpl.
  - rewrite app_nil_r. reflexivity.
  - rewrite IH. destruct (p s); [|reflexivity].
    rewrite <- app_assoc. reflexivity.
Qed.

(** [ByCategory] fails exactly when the listing fails, with its error, and
    otherwise returns, in the order of the listing and each once, the
    listed suppliers that have at least one of the given categories; with
    no category given it returns none. *)
Theorem ByCategory_filters_listing categories w :
  snd (ByCategory env categories w)
  = match snd (Store_List env w) with
    | Err e => Err e
    | Ok all => Ok (List.filter (shares_category categories) all)
    end
  /\ (db_fault env (tick w) = None -> snd (ByCategory env [] w) = Ok []).
Proof.
  assert (Hgen : forall cats,
    snd (ByCategory env cats w)
    = match snd (Store_List env w) with
      | Err e => Err e
      | Ok all => Ok (List.filter (shares_category cats) all)
      end).
  { intros cats. unfold ByCategory.
    destruct (Store_List env w) as [w1 [all|e]]; simpl; [|reflexivity].
    rewrite append_if_filter. simpl. f_equal.
    apply filter_ext. intros s. unfold shares_category.
    apply in_catSet_spec. }
  split; [apply Hgen|].
  intros Hdb. rewrite Hgen. unfold Store_List. rewrite Hdb. simpl. f_equal.
  induction (order_by_name _) as [|s l IH]; simpl; [reflexivity|].
  unfold shares_category at 1.
  replace (existsb _ (sup_Categories s)) with false; [exact IH|].
  induction (sup_Categories s); simpl; auto.
Qed.

End DirectoryFacts.

Section SupplierTableFacts.

Import SupplierTable.






End SupplierTableFacts.

(** ** Further facts on dispatch, waiting and the purchase memory *)

Section MoreFacts.

Variable env : Env.

(** [SendQuotes] itself removes no duplicate: the (request, supplier) pairs
    of the units it creates are those of the suppliers it is given, in
    order, so they are pairwise distinct exactly when the suppliers'
    identifiers are. *)
Theorem SendQuotes_pairs_follow_suppliers fuel snd_ req sups w w' :
  SendQuotes env fuel snd_ req sups w = Some (w', None) ->
  exists new,
    quotes w' = quotes w ++ new
    /\ map pair_of new = map (fun s => (req_ID req, sup_ID s)) sups
    /\ (NoDup (map pair_of new) <-> NoDup (map sup_ID sups)).
Proof.
  intros H. apply (SendQuotes_ok env (fun _ => true)) in H; auto.
  destruct H as [_ (new & Hq & Hnew)].
  exists new. split; [exact Hq|].
  pose proof (units_pairs req new sups Hnew) as Hp.
  split; [exact Hp|]. rewrite Hp.
  rewrite <- (map_map sup_ID (fun i => (req_ID req, i))).
  apply (NoDup_fmap (fun i => (req_ID req, i))).
Qed.

Lemma Sleep_not_listening a d w :
  listening a = false -> quotes (Sleep env a d w) = quotes w.
Proof.
  intros Hl. unfold Sleep, deliver. rewrite Hl. reflexivity.
Qed.

(** For an agent on which no handler was registered, as [New] builds it,
    the wait loop leaves the quote units as they are; so unless the
    expected number of units is received at the start, a wait that ends
    without error has reached the deadline. *)
Theorem wait_loop_without_handler a requestID expected deadline :
  listening a = false ->
  forall fuel w w' r,
    wait_loop env fuel a requestID expected deadline w = Some (w', r) ->
    quotes w' = quotes w
    /\ (r = None -> received_in_store requestID w <> expected ->
        deadline <= clock w').
Proof.
  intros Hl. induction fuel as [|fuel IH]; intros w w' r H; simpl in H.
  - discriminate.
  - destruct (clock w <? deadline) eqn:Hclk.
    + unfold PendingByRequest in H.
      destruct (db_fault env (tick w)).
      * inversion H; subst. split; [reflexivity | discriminate].
      * fold (received_in_store requestID w) in H.
        destruct (received_in_store requestID w =? expected)%nat eqn:Hexp.
        -- inversion H; subst. split; [reflexivity|].
           apply Nat.eqb_eq in Hexp. intros _ Hne. contradiction.
        -- apply IH in H. destruct H as [Hq Hd].
           rewrite Sleep_not_listening in Hq by exact Hl. simpl in Hq.
           split; [exact Hq|]. intros Hr _. apply Hd; [exact Hr|].
           unfold received_in_store.
           rewrite Sleep_not_listening by exact Hl. simpl.
           apply Nat.eqb_neq in Hexp. exact Hexp.
    + inversion H; subst. apply Z.ltb_ge in Hclk. split; [reflexivity | auto].
Qed.

Lemma has_purchase_In id rows :
  has_purchase id rows = true <-> In id (map pr_ID rows).
Proof.
  unfold has_purchase. rewrite existsb_exists, in_map_iff. split.
  - intros (r & Hr & He). apply String.eqb_eq in He. eauto.
  - intros (r & He & Hr). exists r. split; [exact Hr|].
    apply String.eqb_eq. exact He.
Qed.

(** [memory.Save] only ever appends: the records already there stay, at
    most one is added, identifiers stay pairwise distinct and every record
    keeps a creation time, the one given or else the time of saving. *)
Theorem memory_Save_appends rec w :
  NoDup (map pr_ID (purchase_memory w)) ->
  Forall (fun r => pr_CreatedAt r <> None) (purchase_memory w) ->
  exists added,
    purchase_memory (fst (memory_Save env rec w)) = purchase_memory w ++ added
    /\ (length added <= 1)%nat
    /\ (snd (memory_Save env rec w) = None -> length added = 1%nat)
    /\ NoDup (map pr_ID (purchase_memory (fst (memory_Save env rec w))))
    /\ Forall (fun r => pr_CreatedAt r <> None)
              (purchase_memory (fst (memory_Save env rec w))).
Proof.
  intros Hnd Hall. unfold memory_Save.
  set (wid := if (pr_ID rec =? "")%string then uuid_New env w else (w, pr_ID rec)).
  assert (Hw1 : purchase_memory (fst wid) = purchase_memory w).
  { subst wid. destruct (pr_ID rec =? "")%string; reflexivity. }
  destruct wid as [w1 id]. simpl in Hw1.
  destruct (db_fault env (tick w1)); simpl.
  - exists []. rewrite app_nil_r, Hw1. repeat split; auto. discriminate.
  - destruct (has_purchase id (purchase_memory w1)) eqn:Hh; simpl.
    + exists []. rewrite app_nil_r, Hw1. repeat split; auto. discriminate.
    + eexists [_]. rewrite Hw1. split; [reflexivity|].
      split; [simpl; lia|]. split; [reflexivity|]. split.
      * rewrite map_app. simpl. apply NoDup_app. split; [exact Hnd|]. split.
        -- intros x Hx Hin. apply list_elem_of_singleton in Hin. subst x.
           apply list_elem_of_In in Hx. rewrite <- Hw1 in Hx.
           apply has_purchase_In in Hx. congruence.
        -- apply NoDup_singleton.
      * apply Forall_app. split; [exact Hall|].
        constructor; [|constructor]. simpl.
        destruct (pr_CreatedAt rec); discriminate.
Qed.

End MoreFacts.

(** ** Runs of the further properties *)

Lemma quote_ids_stay_unique_witness :
  exists w' r,
    SendQuotes env_calm 5 MockSender request0 [sup_a; sup_b] world_pending
      = Some (w', r)
    /\ NoDup (quote_ids w').
Proof.
  edestruct (quote_ids_stay_unique env_calm 5 MockSender request0
               [sup_a; sup_b] world_pending) as (Hnd & _).
  - unfold quote_ids. simpl.
    repeat (apply NoDup_cons_2;
            [rewrite ?not_elem_of_cons; repeat split; try discriminate;
             apply not_elem_of_nil|]).
    apply NoDup_nil_2.
  - vm_compute. reflexivity.
  - eexists _, _. split; [vm_compute; reflexivity | exact Hnd].
Defined.


Lemma UpdateQuoteResponse_unknown_id_witness :
  quotes (fst (UpdateQuoteResponse env_calm "zz" "R$ 32" 32%Q world_pending))
  = quotes world_pending.
Proof.
  apply (UpdateQuoteResponse_unknown_id env_calm "zz" "R$ 32" 32%Q
           world_pending).
  reflexivity.
Defined.

Lemma UpdateQuoteResponse_read_back_witness :
  exists w',
    UpdateQuoteResponse env_calm "q2" "R$ 32" 32%Q world_pending = (w', None)
    /\ map r_status (quotes w') = ["pending"; "received"; "pending"].
Proof.
  edestruct (UpdateQuoteResponse_read_back env_calm
               [row "q1" "r1" "a" "pending"] (row "q2" "r2" "a" "pending")
               [row "q3" "r2" "b" "pending"] "R$ 32" 32%Q world_pending)
    as (Hrows & _).
  - unfold quote_ids. simpl.
    repeat (apply NoDup_cons_2;
            [rewrite ?not_elem_of_cons; repeat split; try discriminate;
             apply not_elem_of_nil|]).
    apply NoDup_nil_2.
  - reflexivity.
  - vm_compute. reflexivity.
  - reflexivity.
  - eexists. split; [vm_compute; reflexivity|]. rewrite Hrows. reflexivity.
Defined.

Lemma ChatWithTools_errors_witness :
  "empty response" = "empty response"
  \/ exists e0, "empty response" = "openrouter api: " +:+ e0.
Proof.
  eapply (ChatWithTools_errors env_no_choice (compare_executor env_no_choice)
            1 {| System := ""; User := PromptParse ""; Tools := [] |}
            zero_comparison world0).
  vm_compute. reflexivity.
Defined.

Lemma CompareQuotes_last_parsed_witness :
  exists w',
    CompareQuotes env_ranked 3 request0 [quote_a] world0 = Some (w', Ok best_a)
    /\ tick w' = 2%nat.
Proof.
  apply (CompareQuotes_last_parsed env_ranked 3 request0 [quote_a] world0 1
           [] {| tc_ID := "call_1"; tc_Name := "compare_quotes";
                 tc_Arguments := "ranking" |}
           [ {| tc_ID := "call_2"; tc_Name := "compare_quotes";
                tc_Arguments := "{" |} ] best_a).
  - discriminate.
  - lia.
  - intros i Hi. replace i with 0%nat by lia. reflexivity.
  - reflexivity.
  - reflexivity.
  - reflexivity.
  - reflexivity.
Defined.

Lemma composeMessage_nonempty_witness :
  exists w' msg,
    composeMessage env_calm 3 request0 sup_a world0 = Some (w', Ok msg)
    /\ msg <> "".
Proof.
  eexists _, _. split; [vm_compute; reflexivity|].
  eapply (composeMessage_nonempty env_calm 3 request0 sup_a world0).
  vm_compute. reflexivity.
Defined.

Lemma SendQuotes_mock_records_witness :
  exists w' sent,
    SendQuotes env_calm 5 MockSender request0 [sup_a; sup_b] world0
      = Some (w', None)
    /\ mock_sent w' = mock_sent world0 ++ sent
    /\ map fst sent = ["111"; "222"].
Proof.
  edestruct (SendQuotes_mock_records env_calm 5 request0 [sup_a; sup_b] world0)
    as (sent & Hs & Hp & _).
  - vm_compute. reflexivity.
  - eexists _, sent. split; [vm_compute; reflexivity|].
    split; [exact Hs | exact Hp].
Defined.


Lemma SendQuotes_save_failure_witness :
  exists w4,
    SendQuotes (env_db_down 4) 5 MockSender request0 ([] ++ sup_a :: [sup_b])
               world0
    = Some (w4, Some ("save quote: " +:+ "database is locked"))
    /\ quotes w4 = []
    /\ In (EvSend "111" (fallback_message (env_db_down 4) request0 sup_a))
          (log w4).
Proof.
  edestruct (SendQuotes_save_failure (env_db_down 4) 5 MockSender request0
               [] sup_a [sup_b] world0) as (Hrun & (new & Hq & Hnew) & Hlog).
  - reflexivity.
  - vm_compute. reflexivity.
  - vm_compute. reflexivity.
  - vm_compute. reflexivity.
  - eexists. split; [exact Hrun|]. split; [|exact Hlog].
    inversion Hnew; subst. exact Hq.
Defined.

Lemma Quote_empty_directory_witness :
  exists w1,
    Agent_Quote env_calm 5 (New DefaultConfig) "10 sacos de cimento" true
                world_no_supplier
    = Some (emit env_calm EvListSuppliers w1, None)
    /\ quotes (emit env_calm EvListSuppliers w1) = quotes world_no_supplier.
Proof.
  edestruct (Quote_empty_directory env_calm 5 (New DefaultConfig)
               "10 sacos de cimento" true world_no_supplier)
    as (Hrun & Hq & _).
  - reflexivity.
  - vm_compute. reflexivity.
  - reflexivity.
  - eexists. split; [exact Hrun | exact Hq].
Defined.

Lemma Quote_no_supplier_witness :
  exists w2,
    Agent_Quote env_calm 5 (New DefaultConfig) "10 sacos de cimento" true
                world_no_supplier = Some (w2, None)
    /\ quotes w2 = quotes world_no_supplier.
Proof.
  edestruct (Quote_no_supplier env_calm 5 (New DefaultConfig)
               "10 sacos de cimento" true world_no_supplier)
    as (Hrun & Hq & _).
  - vm_compute. reflexivity.
  - vm_compute. reflexivity.
  - eexists. split; [exact Hrun | exact Hq].
Defined.

Lemma Quote_fails_before_dispatch_witness :
  exists w',
    Agent_Quote (env_api_down 0) 5 (New DefaultConfig) "10 sacos de cimento"
                false world0
    = Some (w', Some ("analisar pedido: "
                      +:+ "parse request: openrouter api: connection reset"))
    /\ quotes w' = quotes world0.
Proof.
  edestruct (Quote_fails_before_dispatch (env_api_down 0) 5
               (New DefaultConfig) "10 sacos de cimento" false world0)
    as ([Hrun|Hrun] & Hq & _).
  - left. vm_compute. reflexivity.
  - eexists. split; [exact Hrun | exact Hq].
  - vm_compute in Hrun. discriminate Hrun.
Defined.


Lemma wait_and_decide_save_ignored_witness :
  exists w4,
    wait_and_decide env_reply 2 (New short_config) "cimento" request0
                    ["cimento"] 1 0 world_answered = Some (w4, None)
    /\ (length (purchase_memory w4) <= 1)%nat.
Proof.
  edestruct (wait_and_decide_save_ignored env_reply 2 (New short_config)
               "cimento" request0 ["cimento"] 1 0 world_answered)
    as (w4 & Hrun & Hmem).
  - vm_compute. reflexivity.
  - vm_compute. reflexivity.
  - discriminate.
  - vm_compute. reflexivity.
  - exists w4. split; [exact Hrun|].
    destruct Hmem as [Hm | (id & t & Hm)]; rewrite Hm.
    + vm_compute. lia.
    + rewrite length_app. vm_compute. lia.
Defined.

Lemma wait_loop_iterations_bounded_witness :
  exists n w' r,
    wait_loop env_reply 4 (New short_config) "r1" 1 (30 * Duration.Second)
              world_one_pending = Some (w', r)
    /\ clock world_one_pending + Z.of_nat n * (10 * Duration.Second)
       <= clock w'.
Proof.
  destruct (wait_loop_iterations_bounded env_reply (New short_config) "r1" 1
              (30 * Duration.Second) 4 world_one_pending)
    as (n & w' & r & Hrun & _ & Hc & _).
  - vm_compute. lia.
  - exists n, w', r. split; assumption.
Defined.

Lemma Match_only_active_suppliers_witness :
  exists w' results,
    Match env_match_first 3 ["cimento"] "local" world0 = Some (w', Ok results)
    /\ map result_id results = ["a"; "b"]
    /\ NoDup (map result_id results).
Proof.
  edestruct (Match_only_active_suppliers env_match_first 3 ["cimento"] "local"
               world0) as (_ & Hnd).
  - vm_compute. reflexivity.
  - eexists _, _. split; [vm_compute; reflexivity|].
    split; [reflexivity | exact Hnd].
Defined.


Lemma SendQuotes_pairs_follow_suppliers_witness :
  exists w' new,
    SendQuotes env_calm 5 MockSender request0 [sup_a; sup_a] world0
      = Some (w', None)
    /\ quotes w' = quotes world0 ++ new
    /\ map pair_of new = [("r1", "a"); ("r1", "a")].
Proof.
  edestruct (SendQuotes_pairs_follow_suppliers env_calm 5 MockSender request0
               [sup_a; sup_a] world0) as (new & Hq & Hp & _).
  - vm_compute. reflexivity.
  - eexists _, new. split; [vm_compute; reflexivity|].
    split; [exact Hq | exact Hp].
Defined.

Lemma wait_loop_without_handler_witness :
  exists w',
    wait_loop env_reply 4 (New short_config) "r1" 1 (30 * Duration.Second)
              world_one_pending = Some (w', None)
    /\ quotes w' = quotes world_one_pending
    /\ 30 * Duration.Second <= clock w'.
Proof.
  edestruct (wait_loop_without_handler env_reply (New short_config) "r1" 1
               (30 * Duration.Second) eq_refl 4 world_one_pending)
    as (Hq & Hd).
  - vm_compute. reflexivity.
  - eexists. split; [vm_compute; reflexivity|]. split; [exact Hq|].
    apply Hd; [reflexivity | discriminate].
Defined.

Lemma memory_Save_appends_witness :
  exists added,
    purchase_memory
      (fst (memory_Save env_calm
              {| pr_ID := ""; pr_Description := "cimento";
                 pr_Items := ["cimento"]; pr_ChosenSupplier := "Casa A";
                 pr_TotalPrice := 320%Q; pr_CreatedAt := None |} world0))
    = purchase_memory world0 ++ added
    /\ (length added <= 1)%nat.
Proof.
  edestruct (memory_Save_appends env_calm
               {| pr_ID := ""; pr_Description := "cimento";
                  pr_Items := ["cimento"]; pr_ChosenSupplier := "Casa A";
                  pr_TotalPrice := 320%Q; pr_CreatedAt := None |} world0)
    as (added & Ha & Hl & _).
  - apply NoDup_nil_2.
  - constructor.
  - exists added. split; [exact Ha | exact Hl].
Defined.
